(** * A FEN record validator: the parser of [fen_parser_gui.py]

    The development embeds the validating core of [fen_parser_gui.py]
    (the functions [_validate_fields_count] ... [parse_fen]) and proves
    the properties its specification states about it.  The Tkinter front
    end only consumes the record or the exception produced here and is not
    modelled.

    Python values are represented as follows:
    - a [str] is the list of its Unicode code points, each a number in [N];
    - an [int] is a [Z];
    - [None] in a board cell is [None], a piece is [Some] of its letter;
    - a raised exception is the [Raise] branch of [result]. *)

From Stdlib Require Import List NArith ZArith Bool Lia String Ascii DecimalString.
Import ListNotations.

(** [len] of a list; the name is otherwise taken by the strings of the
    standard library. *)
Abbreviation length := Datatypes.length.

(** ** The Python built-ins the parser calls *)

Module Py.

Definition char : Type := N.
Definition str : Type := list char.

(** A literal of the source.  Every literal used below is plain ASCII, so
    its bytes are its code points. *)
Definition lit (x : string) : str := map N_of_ascii (list_ascii_of_string x).

(** [a == b] on strings. *)
Fixpoint str_eqb (a b : str) : bool :=
  match a, b with
  | [], [] => true
  | x :: a', y :: b' => (x =? y)%N && str_eqb a' b'
  | _, _ => false
  end.

(** [c in s] for a one-character [c] and a string (or a set of
    one-character strings) [s]. *)
Definition mem (c : char) (s : str) : bool := existsb (N.eqb c) s.

(** *** The Unicode character database

    The tables are those of Unicode 14.0.0, the version CPython 3.11
    ships; each pair is an inclusive range of code points. *)

Definition in_run (c : char) (r : N * N) : bool :=
  ((fst r <=? c) && (c <=? snd r))%N.

Definition in_runs (c : char) (rs : list (N * N)) : bool :=
  existsb (in_run c) rs.

(** [Py_UNICODE_ISSPACE]: what [str.isspace], [str.strip()] and
    [str.split()] call whitespace. *)
Definition whitespace_runs : list (N * N) :=
  [ (0x9, 0xD); (0x1C, 0x20); (0x85, 0x85); (0xA0, 0xA0); (0x1680, 0x1680);
    (0x2000, 0x200A); (0x2028, 0x2029); (0x202F, 0x202F); (0x205F, 0x205F);
    (0x3000, 0x3000) ]%N.

Definition isspace_char (c : char) : bool := in_runs c whitespace_runs.

(** Characters of category Nd.  Every range is a sequence of runs of ten
    digits in increasing order, zero first. *)
Definition decimal_runs : list (N * N) :=
  [ (0x30, 0x39); (0x660, 0x669); (0x6F0, 0x6F9); (0x7C0, 0x7C9);
    (0x966, 0x96F); (0x9E6, 0x9EF); (0xA66, 0xA6F); (0xAE6, 0xAEF);
    (0xB66, 0xB6F); (0xBE6, 0xBEF); (0xC66, 0xC6F); (0xCE6, 0xCEF);
    (0xD66, 0xD6F); (0xDE6, 0xDEF); (0xE50, 0xE59); (0xED0, 0xED9);
    (0xF20, 0xF29); (0x1040, 0x1049); (0x1090, 0x1099); (0x17E0, 0x17E9);
    (0x1810, 0x1819); (0x1946, 0x194F); (0x19D0, 0x19D9); (0x1A80, 0x1A89);
    (0x1A90, 0x1A99); (0x1B50, 0x1B59); (0x1BB0, 0x1BB9); (0x1C40, 0x1C49);
    (0x1C50, 0x1C59); (0xA620, 0xA629); (0xA8D0, 0xA8D9); (0xA900, 0xA909);
    (0xA9D0, 0xA9D9); (0xA9F0, 0xA9F9); (0xAA50, 0xAA59); (0xABF0, 0xABF9);
    (0xFF10, 0xFF19); (0x104A0, 0x104A9); (0x10D30, 0x10D39);
    (0x11066, 0x1106F); (0x110F0, 0x110F9); (0x11136, 0x1113F);
    (0x111D0, 0x111D9); (0x112F0, 0x112F9); (0x11450, 0x11459);
    (0x114D0, 0x114D9); (0x11650, 0x11659); (0x116C0, 0x116C9);
    (0x11730, 0x11739); (0x118E0, 0x118E9); (0x11950, 0x11959);
    (0x11C50, 0x11C59); (0x11D50, 0x11D59); (0x11DA0, 0x11DA9);
    (0x16A60, 0x16A69); (0x16AC0, 0x16AC9); (0x16B50, 0x16B59);
    (0x1D7CE, 0x1D7FF); (0x1E140, 0x1E149); (0x1E2F0, 0x1E2F9);
    (0x1E950, 0x1E959); (0x1FBF0, 0x1FBF9) ]%N.

(** Characters with a digit value that are not decimal: superscripts,
    subscripts, circled and parenthesised digits and the like. *)
Definition digit_only_runs : list (N * N) :=
  [ (0xB2, 0xB3); (0xB9, 0xB9); (0x1369, 0x1371); (0x19DA, 0x19DA);
    (0x2070, 0x2070); (0x2074, 0x2079); (0x2080, 0x2089); (0x2460, 0x2468);
    (0x2474, 0x247C); (0x2488, 0x2490); (0x24EA, 0x24EA); (0x24F5, 0x24FD);
    (0x24FF, 0x24FF); (0x2776, 0x277E); (0x2780, 0x2788); (0x278A, 0x2792);
    (0x10A40, 0x10A43); (0x10E60, 0x10E68); (0x11052, 0x1105A);
    (0x1F100, 0x1F10A) ]%N.

(** [Py_UNICODE_TODECIMAL]: the decimal value of a character, if any. *)
Fixpoint decimal_in (c : char) (rs : list (N * N)) : option N :=
  match rs with
  | [] => None
  | r :: rs' => if in_run c r then Some ((c - fst r) mod 10)%N
                else decimal_in c rs'
  end.

Definition decimal_value (c : char) : option N := decimal_in c decimal_runs.

Definition isdecimal_char (c : char) : bool := in_runs c decimal_runs.

(** [Py_UNICODE_ISDIGIT]. *)
Definition isdigit_char (c : char) : bool :=
  isdecimal_char c || in_runs c digit_only_runs.

(** [s.isdigit()]: every character is a digit and there is at least one. *)
Definition isdigit (s : str) : bool :=
  match s with
  | [] => false
  | _ :: _ => forallb isdigit_char s
  end.

(** *** [str.strip()] and [str.split()] without arguments *)

Fixpoint lstrip (s : str) : str :=
  match s with
  | [] => []
  | c :: s' => if isspace_char c then lstrip s' else s
  end.

Definition rstrip (s : str) : str := rev (lstrip (rev s)).

Definition strip (s : str) : str := rstrip (lstrip s).

(** The maximal runs of characters that are not whitespace, in order. *)
Fixpoint split (s : str) : list str :=
  match s with
  | [] => []
  | c :: s' =>
      if isspace_char c then split s'
      else match s' with
           | [] => [[c]]
           | d :: _ =>
               if isspace_char d then [c] :: split s'
               else match split s' with
                    | w :: ws => (c :: w) :: ws
                    | [] => [[c]]
                    end
           end
  end.

(** [s.split(sep)] for a one-character separator: cut at every occurrence,
    keeping empty pieces; the result is never empty. *)
Fixpoint split_on (sep : char) (s : str) : list str :=
  match s with
  | [] => [[]]
  | c :: s' =>
      if (c =? sep)%N then [] :: split_on sep s'
      else match split_on sep s' with
           | w :: ws => (c :: w) :: ws
           | [] => [[c]]
           end
  end.

(** *** [int(s)] in base ten

    [max_str_digits] is [sys.get_int_max_str_digits()]: zero for no limit
    (always so before the limit was introduced), else at least 640, by
    default 4300. *)

(** [Py_ISSPACE], the whitespace of the C locale. *)
Definition is_c_space (c : char) : bool :=
  ((9 <=? c) && (c <=? 13) || (c =? 32))%N.

Definition is_ascii_digit (c : char) : bool := ((48 <=? c) && (c <=? 57))%N.

(** [_PyUnicode_TransformDecimalAndSpaceToASCII]: ASCII is kept, other
    whitespace becomes a space, other decimal characters their ASCII
    digit; the first character that is none of these becomes ['?'] and
    ends the text. *)
Fixpoint to_ascii_digits (s : str) : str :=
  match s with
  | [] => []
  | c :: s' =>
      if (c <? 128)%N then c :: to_ascii_digits s'
      else if isspace_char c then 32%N :: to_ascii_digits s'
      else match decimal_value c with
           | Some d => (48 + d)%N :: to_ascii_digits s'
           | None => [63%N]
           end
  end.

Fixpoint lstrip_c (a : str) : str :=
  match a with
  | [] => []
  | c :: a' => if is_c_space c then lstrip_c a' else a
  end.

(** The digits of the literal, single underscores between them skipped.
    [prev_us] tells that the previous character was an underscore; the
    result is the digit values read and the text left, or [None] for a
    doubled or trailing underscore. *)
Fixpoint scan_digits (prev_us : bool) (a : str) (acc : list N)
  : option (list N * str) :=
  match a with
  | [] => if prev_us then None else Some (acc, [])
  | c :: a' =>
      if is_ascii_digit c then scan_digits false a' (acc ++ [(c - 48)%N])
      else if (c =? 95)%N then
        if prev_us then None else scan_digits true a' acc
      else if prev_us then None else Some (acc, a)
  end.

Definition value (ds : list N) : Z :=
  fold_left (fun v d => (10 * v + Z.of_N d)%Z) ds 0%Z.

(** [None] stands for the [ValueError] that [int] raises. *)
Definition int (max_str_digits : nat) (s : str) : option Z :=
  let a := lstrip_c (to_ascii_digits s) in
  let '(neg, a) :=
    match a with
    | c :: r => if (c =? 45)%N then (true, r)
                else if (c =? 43)%N then (false, r) else (false, a)
    | [] => (false, a)
    end in
  match a with
  | c :: _ => if (c =? 95)%N then None else
      match scan_digits false a [] with
      | None => None
      | Some (ds, rest) =>
          if negb (forallb is_c_space rest) then None
          else match ds with
               | [] => None
               | _ :: _ =>
                   if ((0 <? max_str_digits) && (max_str_digits <? length ds))%nat
                   then None
                   else Some (if neg then (- value ds)%Z else value ds)
               end
      end
  | [] => None
  end.

(** [str(n)] for a non-negative [n], as the f-strings of the messages
    print a length or an index. *)
Definition dec (n : nat) : str := lit (NilEmpty.string_of_uint (Nat.to_uint n)).

End Py.

Import Py.

Arguments mem : simpl never.
Arguments lit : simpl never.

(** ** Exceptions

    [LexicalError] and [ParseError] are the two subclasses of [FenError].
    A [diagnostic] is the message template an exception is built from,
    with the values its f-string interpolates. *)

Inductive diagnostic : Type :=
| FieldsCount (n : nat)              (* _validate_fields_count *)
| RanksCount (n : nat)               (* _parse_piece_placement *)
| EightMixed (i : nat)
| BadChar (ch : char) (i : nat)
| RowSum (i n : nat)
| BadSide                            (* _parse_side_to_move *)
| BadCastlingChar (ch : char)        (* _parse_castling *)
| DupCastling (ch : char)
| EpLength                           (* _parse_en_passant *)
| EpFile (ch : char)
| EpRank (ch : char)
| HalfmoveNotDigits                  (* _parse_halfmove_clock *)
| HalfmoveNegative
| FullmoveNotDigits                  (* _parse_fullmove_number *)
| FullmoveTooSmall.

(** [ValueError] and [IndexError] are Python's own: raised by [int], by
    the unpacking of [parts] and by indexing; they are not [FenError]s. *)
Inductive exn : Type :=
| LexicalError (d : diagnostic)
| ParseError (d : diagnostic)
| ValueError
| IndexError.

(** The [kind] attribute of a [FenError].  [PARSE], shown to the user as
    [SINTAXIS], is the tag the specification calls SYNTACTIC. *)
Inductive error_kind : Type := LEXICAL | PARSE.

Definition kind (e : exn) : option error_kind :=
  match e with
  | LexicalError _ => Some LEXICAL
  | ParseError _ => Some PARSE
  | ValueError | IndexError => None
  end.

Inductive result (A : Type) : Type :=
| Ok (a : A)
| Raise (e : exn).

Arguments Ok {A} a.
Arguments Raise {A} e.

(** The text of a diagnostic.  The accented letters of the Spanish
    messages are given by their code points. *)
Definition detail (d : diagnostic) : str :=
  let a' := [0xE1%N] in let i' := [0xED%N] in let u' := [0xFA%N] in
  match d with
  | FieldsCount n =>
      lit "Se esperaban 6 campos separados por espacios, pero se recibieron "
      ++ dec n ++ lit "."
  | RanksCount n =>
      lit "El campo <Piece Placement> debe tener 8 filas separadas por '/', pero tiene "
      ++ dec n ++ lit "."
  | EightMixed i =>
      lit "En la fila " ++ dec i ++ lit ", '8' solo es v" ++ a'
      ++ lit "lido si la fila completa es '8'. "
      ++ lit "No puede aparecer mezclado con otras piezas/d" ++ i' ++ lit "gitos."
  | BadChar ch i =>
      lit "Car" ++ a' ++ lit "cter no permitido '" ++ [ch] ++ lit "' en la fila "
      ++ dec i ++ lit " del <Piece Placement>."
  | RowSum i n =>
      lit "La fila " ++ dec i ++ lit " suma " ++ dec n
      ++ lit " columnas; deben ser exactamente 8."
  | BadSide => lit "El campo <Side to move> debe ser 'w' o 'b'."
  | BadCastlingChar ch =>
      lit "Car" ++ a' ++ lit "cter de enroque inv" ++ a' ++ lit "lido '" ++ [ch]
      ++ lit "'. Solo se permiten K, Q, k, q o '-'."
  | DupCastling ch =>
      lit "Enroque repetido: '" ++ [ch]
      ++ lit "'. No se permiten duplicados en <Castling ability>."
  | EpLength =>
      lit "El campo <En passant target square> debe ser '-' o una casilla como 'e3'/'e6'."
  | EpFile ch =>
      lit "Archivo en en passant inv" ++ a' ++ lit "lido '" ++ [ch]
      ++ lit "'. Debe estar en [a-h]."
  | EpRank ch =>
      lit "Rango de en passant inv" ++ a' ++ lit "lido '" ++ [ch]
      ++ lit "'. Seg" ++ u' ++ lit "n el enunciado, solo '3' o '6'."
  | HalfmoveNotDigits =>
      lit "El campo <Halfmove clock> debe ser un n" ++ u'
      ++ lit "mero decimal no negativo."
  | HalfmoveNegative => lit "El <Halfmove clock> no puede ser negativo."
  | FullmoveNotDigits =>
      lit "El campo <Fullmove counter> debe ser un n" ++ u'
      ++ lit "mero entero decimal >= 1."
  | FullmoveTooSmall => lit "El <Fullmove counter> debe ser >= 1."
  end.

(** [str(e)] for a [FenError]: the constructors prefix the label. *)
Definition message (e : exn) : option str :=
  match e with
  | LexicalError d => Some (lit "[L" ++ [0xC9%N] ++ lit "XICO] " ++ detail d)
  | ParseError d => Some (lit "[SINTAXIS] " ++ detail d)
  | ValueError | IndexError => None
  end.

(** ** The data model *)

Definition UNICODE_WHITE_keys : str := lit "PNBRQK".
Definition UNICODE_BLACK_keys : str := lit "pnbrqk".
Definition ALL_PIECES : str := UNICODE_WHITE_keys ++ UNICODE_BLACK_keys.
Definition DIGITS_1_7 : str := lit "1234567".

Definition Row : Type := list (option char).
Definition Board : Type := list Row.

Record FenRecord : Type := mkFenRecord {
  board : Board;              (* 8x8; None = empty cell *)
  side_to_move : str;         (* 'w' or 'b' *)
  castling : str;             (* '-' or letters of 'KQkq', none repeated *)
  en_passant : str;           (* '-' or [a-h][36] *)
  halfmove_clock : Z;         (* >= 0 *)
  fullmove_number : Z         (* >= 1 *)
}.

(** ** The validators *)

Definition _validate_fields_count (parts : list str) : result unit :=
  if negb (length parts =? 6)%nat
  then Raise (ParseError (FieldsCount (length parts)))
  else Ok tt.

(** [int(ch)] for [ch] in [DIGITS_1_7]. *)
Definition digit_count (ch : char) : nat := N.to_nat (ch - 48)%N.

(** The [while j < len(rank)] loop of [_parse_piece_placement] for rank
    number [i]: [rest] is [rank[j:]] and [row] the cells appended so far. *)
Fixpoint scan_rank (i : nat) (rest : str) (row : Row) : result Row :=
  match rest with
  | [] => Ok row
  | ch :: rest' =>
      if mem ch ALL_PIECES then scan_rank i rest' (row ++ [Some ch])
      else if mem ch DIGITS_1_7 then
        scan_rank i rest' (row ++ repeat None (digit_count ch))
      else if (ch =? 56)%N then Raise (ParseError (EightMixed i))
      else Raise (LexicalError (BadChar ch i))
  end.

(** The body of the [for i, rank in enumerate(ranks, start=1)] loop: the
    row that is appended to the board, or the exception that leaves the
    loop. *)
Definition parse_rank (i : nat) (rank : str) : result Row :=
  if str_eqb rank (lit "8") then Ok (repeat None 8)
  else match scan_rank i rank [] with
       | Raise e => Raise e
       | Ok row =>
           if negb (length row =? 8)%nat
           then Raise (ParseError (RowSum i (length row)))
           else Ok row
       end.

(** The [for] loop itself, from rank number [i] on. *)
Fixpoint parse_ranks (i : nat) (ranks : list str) (board : Board)
  : result Board :=
  match ranks with
  | [] => Ok board
  | rank :: ranks' =>
      match parse_rank i rank with
      | Raise e => Raise e
      | Ok row => parse_ranks (S i) ranks' (board ++ [row])
      end
  end.

Definition _parse_piece_placement (placement : str) : result Board :=
  let ranks := split_on 47%N placement in
  if negb (length ranks =? 8)%nat
  then Raise (ParseError (RanksCount (length ranks)))
  else parse_ranks 1 ranks [].

Definition _parse_side_to_move (side : str) : result str :=
  if negb (str_eqb side (lit "w") || str_eqb side (lit "b"))
  then Raise (ParseError BadSide)
  else Ok side.

(** The [for ch in castling] loop, with the set [seen]. *)
Fixpoint castling_loop (rest : str) (seen : list char) : result unit :=
  match rest with
  | [] => Ok tt
  | ch :: rest' =>
      if negb (mem ch (lit "KQkq")) then Raise (LexicalError (BadCastlingChar ch))
      else if mem ch seen then Raise (ParseError (DupCastling ch))
      else castling_loop rest' (ch :: seen)
  end.

Definition _parse_castling (castling : str) : result str :=
  if str_eqb castling (lit "-") then Ok castling
  else match castling_loop castling [] with
       | Raise e => Raise e
       | Ok _ => Ok castling
       end.

Definition _parse_en_passant (ep : str) : result str :=
  if str_eqb ep (lit "-") then Ok ep
  else if negb (length ep =? 2)%nat then Raise (ParseError EpLength)
  else match nth_error ep 0, nth_error ep 1 with
       | Some file_, Some rank =>
           if negb (mem file_ (lit "abcdefgh"))
           then Raise (LexicalError (EpFile file_))
           else if negb (mem rank (lit "36"))
           then Raise (ParseError (EpRank rank))
           else Ok ep
       | _, _ => Raise IndexError
       end.

Section Numeric.

Variable max_str_digits : nat.

Definition _parse_halfmove_clock (hm : str) : result Z :=
  if negb (isdigit hm) then Raise (LexicalError HalfmoveNotDigits)
  else match int max_str_digits hm with
       | None => Raise ValueError
       | Some val =>
           if (val <? 0)%Z then Raise (ParseError HalfmoveNegative)
           else Ok val
       end.

Definition _parse_fullmove_number (fn : str) : result Z :=
  if negb (isdigit fn) then Raise (LexicalError FullmoveNotDigits)
  else match int max_str_digits fn with
       | None => Raise ValueError
       | Some val =>
           if (val <? 1)%Z then Raise (ParseError FullmoveTooSmall)
           else Ok val
       end.

(** ** The record assembler

    [parse_fen] is run together with a log of the validators it calls and
    of how each call ended, so that what did not run can be stated. *)

Inductive validator : Type :=
| Vfields_count | Vpiece_placement | Vside_to_move | Vcastling
| Ven_passant | Vhalfmove_clock | Vfullmove_number.

Inductive outcome : Type := Returned | Raised (e : exn).

Definition Log : Type := list (validator * outcome).

Definition outcome_of {A} (r : result A) : outcome :=
  match r with Ok _ => Returned | Raise e => Raised e end.

Definition call {A} (v : validator) (r : result A) : Log * result A :=
  ([(v, outcome_of r)], r).

Definition bind {A B} (m : Log * result A) (k : A -> Log * result B)
  : Log * result B :=
  match m with
  | (l, Ok a) => let '(l', r) := k a in (l ++ l', r)
  | (l, Raise e) => (l, Raise e)
  end.

Notation "x <- m ;; k" := (bind m (fun x => k))
  (at level 61, m at next level, right associativity).

Definition parse_fen_logged (fen : str) : Log * result FenRecord :=
  let parts := split (strip fen) in
  _ <- call Vfields_count (_validate_fields_count parts) ;;
  match parts with
  | [placement; side; castling; ep; halfmove; fullmove] =>
      board <- call Vpiece_placement (_parse_piece_placement placement) ;;
      side <- call Vside_to_move (_parse_side_to_move side) ;;
      castling <- call Vcastling (_parse_castling castling) ;;
      ep <- call Ven_passant (_parse_en_passant ep) ;;
      hm <- call Vhalfmove_clock (_parse_halfmove_clock halfmove) ;;
      fn <- call Vfullmove_number (_parse_fullmove_number fullmove) ;;
      ([], Ok (mkFenRecord board side castling ep hm fn))
  | _ => ([], Raise ValueError)   (* the unpacking of [parts] *)
  end.

Definition parse_fen (fen : str) : result FenRecord :=
  snd (parse_fen_logged fen).

End Numeric.

(** The order in which [parse_fen] calls the validators. *)
Definition validation_order : list validator :=
  [Vfields_count; Vpiece_placement; Vside_to_move; Vcastling;
   Ven_passant; Vhalfmove_clock; Vfullmove_number].

(** ** Sample records *)

Definition initial_position : str :=
  lit "rnbqkbnr/pppppppp/8/8/8/8/PPPPPPPP/RNBQKBNR w KQkq - 0 1".

Definition empty_row : Row := repeat None 8.

Definition row_of (s : str) : Row := map Some s.

(** A record whose first rank is too long and whose fifth rank holds a
    letter that is no piece. *)
Definition record_with_two_faults : str :=
  lit "2r3k7/p3bqp1/Q2p3p/3Pp3/P3C3/8/5PPP/5RK1 b - - 1 27".

(** Strings with what CPython 3.11 answers for them: [s.isdigit()] and
    [int(s)], [None] standing for [ValueError]. *)
Definition digit_vectors : list (list N * bool * option Z) :=
  [ ([0x30]%N, true, Some (0)%Z);
    ([0x32; 0x37]%N, true, Some (27)%Z);
    ([0x30; 0x30; 0x37]%N, true, Some (7)%Z);
    ([0x2D; 0x31]%N, false, Some (-1)%Z);
    ([0x2B; 0x35]%N, false, Some (5)%Z);
    ([0x20; 0x34; 0x32; 0x20]%N, false, Some (42)%Z);
    ([0x31; 0x5F; 0x30; 0x30; 0x30]%N, false, Some (1000)%Z);
    ([0x31; 0x5F; 0x5F; 0x30]%N, false, None);
    ([0x5F; 0x31]%N, false, None);
    ([0x31; 0x5F]%N, false, None);
    ([]%N, false, None);
    ([0x20; 0x20]%N, false, None);
    ([0x663; 0x664]%N, true, Some (34)%Z);
    ([0xB2]%N, true, None);
    ([0x31; 0xB2]%N, true, None);
    ([0xFF11; 0xFF12]%N, true, Some (12)%Z);
    ([0x34; 0x20; 0x32]%N, false, None);
    ([0x9; 0x39; 0xA]%N, false, Some (9)%Z);
    ([0x1C; 0x35]%N, false, None);
    ([0x30; 0x78; 0x31; 0x30]%N, false, None);
    ([0x31; 0x2E; 0x35]%N, false, None);
    ([0x2D; 0x2D; 0x31]%N, false, None);
    ([0x2460]%N, true, None);
    ([0x1D7CE; 0x1D7D9]%N, true, Some (1)%Z);
    ([0x6F0; 0x39]%N, true, Some (9)%Z) ].

(** Strings with [s.strip().split()]. *)
Definition split_vectors : list (list N * list (list N)) :=
  [ ([0x61; 0x20; 0x62], [[0x61]; [0x62]]);
    ([0x20; 0x20; 0x61; 0xA0; 0x62; 0x3000; 0x20; 0x63; 0x9], [[0x61]; [0x62]; [0x63]]);
    ([0x1F; 0x61; 0x1C; 0x62], [[0x61]; [0x62]]);
    ([0x61; 0x200B; 0x62], [[0x61; 0x200B; 0x62]]);
    ([], []);
    ([0x20; 0xA; 0x20], []);
    ([0x72; 0x6E; 0x62; 0x71; 0x20; 0x77; 0x20; 0x20; 0x4B; 0x51; 0x9; 0x2D; 0xD; 0xA; 0x30; 0x20; 0x31], [[0x72; 0x6E; 0x62; 0x71]; [0x77]; [0x4B; 0x51]; [0x2D]; [0x30]; [0x31]]) ]%N.

(** Strings with [s.split('/')]. *)
Definition split_on_vectors : list (list N * list (list N)) :=
  [ ([], [[]]);
    ([0x2F], [[]; []]);
    ([0x61; 0x2F; 0x62], [[0x61]; [0x62]]);
    ([0x38; 0x2F; 0x38; 0x2F; 0x2F], [[0x38]; [0x38]; []; []]);
    ([0x2F; 0x2F], [[]; []; []]) ]%N.

(** ** Notions used to state the properties *)

(** A character the scan of a rank passes: a piece letter or a digit from
    1 to 7. *)
Definition legal (ch : char) : bool := mem ch ALL_PIECES || mem ch DIGITS_1_7.

Definition illegal (ch : char) : bool := negb (legal ch).

(** The cells one legal character appends to the row. *)
Definition cells_of (ch : char) : Row :=
  if mem ch ALL_PIECES then [Some ch] else repeat None (digit_count ch).

(** A cell of a decoded board: empty, or one of the twelve piece letters. *)
Definition cell_ok (cell : option char) : Prop :=
  match cell with
  | None => True
  | Some p => In p ALL_PIECES
  end.

(** Every rank of [ranks], numbered from [i], decodes to a row. *)
Definition ranks_ok (i : nat) (ranks : list str) : Prop :=
  forall j rank, nth_error ranks j = Some rank ->
                 exists row, parse_rank (i + j) rank = Ok row.

(** The same as a test. *)
Fixpoint ranks_okb (i : nat) (ranks : list str) : bool :=
  match ranks with
  | [] => true
  | rank :: ranks' =>
      match parse_rank i rank with
      | Ok _ => ranks_okb (S i) ranks'
      | Raise _ => false
      end
  end.

(** What each validator does on its own field, whether or not an earlier
    one failed: the violations of a record, in the order of the fields. *)
Definition outcomes (max_str_digits : nat) (parts : list str) : Log :=
  (Vfields_count, outcome_of (_validate_fields_count parts)) ::
  match parts with
  | [placement; side; castling; ep; halfmove; fullmove] =>
      [ (Vpiece_placement, outcome_of (_parse_piece_placement placement));
        (Vside_to_move, outcome_of (_parse_side_to_move side));
        (Vcastling, outcome_of (_parse_castling castling));
        (Ven_passant, outcome_of (_parse_en_passant ep));
        (Vhalfmove_clock, outcome_of (_parse_halfmove_clock max_str_digits halfmove));
        (Vfullmove_number, outcome_of (_parse_fullmove_number max_str_digits fullmove)) ]
  | _ => []
  end.

Fixpoint first_violation (l : Log) : option exn :=
  match l with
  | [] => None
  | (_, Raised e) :: _ => Some e
  | (_, Returned) :: l' => first_violation l'
  end.

(** The entries of a log up to the first failure, that one included. *)
Fixpoint until_first_violation (l : Log) : Log :=
  match l with
  | [] => []
  | (v, Raised e) :: _ => [(v, Raised e)]
  | (v, Returned) :: l' => (v, Returned) :: until_first_violation l'
  end.

(** ** Notions for the accepted records *)

Definition is_piece (ch : char) : bool := mem ch ALL_PIECES.

(** A rank the decoder accepts: the text ["8"], or piece letters and
    digits from 1 to 7 whose cells count up to 8. *)
Definition rank_wf (rank : str) : bool :=
  str_eqb rank (lit "8") ||
  (forallb legal rank && (length (flat_map cells_of rank) =? 8)%nat).

(** The row such a rank stands for. *)
Definition decode_rank (rank : str) : Row :=
  if str_eqb rank (lit "8") then repeat None 8 else flat_map cells_of rank.

(** The pieces of a row, from left to right. *)
Fixpoint pieces_of_row (row : Row) : str :=
  match row with
  | [] => []
  | Some p :: row' => p :: pieces_of_row row'
  | None :: row' => pieces_of_row row'
  end.

Definition empties_of_row (row : Row) : nat :=
  length (filter (fun cell => match cell with None => true | Some _ => false end)
                 row).

(** How many times [c] occurs in [s]. *)
Definition occurrences (c : char) (s : str) : nat :=
  length (filter (N.eqb c) s).

(** [" ".join(toks)]. *)
Fixpoint join_space (toks : list str) : str :=
  match toks with
  | [] => []
  | [t] => t
  | t :: toks' => t ++ 32%N :: join_space toks'
  end.

Definition side_ok (side : str) : Prop := side = lit "w" \/ side = lit "b".

Definition castling_ok (c : str) : Prop :=
  c = lit "-" \/ (NoDup c /\ forall ch, In ch c -> In ch (lit "KQkq")).

Definition en_passant_ok (ep : str) : Prop :=
  ep = lit "-" \/
  exists f r, ep = [f; r] /\ In f (lit "abcdefgh") /\ In r (lit "36").

(** ** The board of the window and [on_validate]

    Of the Tkinter window only what [draw_board] and [on_validate] read
    and write is kept: the labels of the board by their grid position
    (text and colours; size and font are the same everywhere), the status
    label, the five labels of the right panel, the entry text and the
    message boxes shown so far. *)

Definition UNICODE_WHITE : list (char * str) :=
  [ (80, [0x2659]); (78, [0x2658]); (66, [0x2657]);
    (82, [0x2656]); (81, [0x2655]); (75, [0x2654]) ]%N.

Definition UNICODE_BLACK : list (char * str) :=
  [ (112, [0x265F]); (110, [0x265E]); (98, [0x265D]);
    (114, [0x265C]); (113, [0x265B]); (107, [0x265A]) ]%N.

(** [d[k]], with [None] for a key that [d] does not have ([k in d] is
    false). *)
Fixpoint dict_get (d : list (char * str)) (k : char) : option str :=
  match d with
  | [] => None
  | (k', v) :: d' => if (k =? k')%N then Some v else dict_get d' k
  end.

(** [str(n)] for an integer. *)
Definition str_int (n : Z) : str := lit (NilEmpty.string_of_int (Z.to_int n)).

Record Label : Type := mkLabel {
  lbl_text : str;
  lbl_bg : str;
  lbl_fg : str
}.

(** The children of [board_frame]: the label that
    [grid_slaves(row=r, column=c)] finds, if there is one. *)
Definition Grid : Type := nat -> nat -> option Label.

Definition set_label (g : Grid) (r c : nat) (l : Label) : Grid :=
  fun r' c' => if ((r' =? r) && (c' =? c))%nat then Some l else g r' c'.

Definition square_bg (r c : nat) : str :=
  if ((r + c) mod 2 =? 0)%nat then lit "#f0d9b5" else lit "#b58863".

Definition empty_label (r c : nat) : Label :=
  mkLabel [] (square_bg r c) (lit "#111").

(** The earlier labels are destroyed and 64 new ones are made. *)
Definition _build_empty_board : Grid :=
  fun r c => if ((r <? 8) && (c <? 8))%nat then Some (empty_label r c)
             else None.

(** The [if ch in UNICODE_WHITE ... elif ... else] of [draw_board]: the
    text and the foreground of a square that holds [ch]. *)
Definition piece_glyph (ch : char) : str * str :=
  match dict_get UNICODE_WHITE ch with
  | Some piece => (piece, lit "#000000")
  | None =>
      match dict_get UNICODE_BLACK ch with
      | Some piece => (piece, lit "#111111")
      | None => (lit "?", lit "#ff0000")
      end
  end.

(** One turn of the inner loop of [draw_board]: [board[r][c]] and the
    first of [grid_slaves] raise [IndexError] out of range. *)
Definition draw_square (board : Board) (r c : nat) (g : Grid)
  : Grid * result unit :=
  match nth_error board r with
  | None => (g, Raise IndexError)
  | Some row =>
      match nth_error row c with
      | None => (g, Raise IndexError)
      | Some None => (g, Ok tt)
      | Some (Some ch) =>
          match g r c with
          | None => (g, Raise IndexError)
          | Some cell =>
              (set_label g r c
                 (mkLabel (fst (piece_glyph ch)) (lbl_bg cell)
                          (snd (piece_glyph ch))),
               Ok tt)
          end
      end
  end.

Fixpoint draw_squares (board : Board) (todo : list (nat * nat)) (g : Grid)
  : Grid * result unit :=
  match todo with
  | [] => (g, Ok tt)
  | (r, c) :: todo' =>
      match draw_square board r c g with
      | (g', Ok _) => draw_squares board todo' g'
      | (g', Raise e) => (g', Raise e)
      end
  end.

(** [for r in range(8): for c in range(8)]. *)
Definition squares : list (nat * nat) := list_prod (seq 0 8) (seq 0 8).

(** The grid [draw_board] leaves and how it ended. *)
Definition draw_board (board : Board) : Grid * result unit :=
  draw_squares board squares _build_empty_board.

Inductive dialog : Type :=
| showinfo (title message : str)
| showerror (title message : str).

Record App : Type := mkApp {
  fen_var : str;
  lbl_status : str * str;          (* text and foreground *)
  board_frame : Grid;
  side_lbl : str;
  castling_lbl : str;
  ep_lbl : str;
  half_lbl : str;
  full_lbl : str;
  dialogs : list dialog            (* the message boxes shown, oldest first *)
}.

Definition set_status (st : str * str) (app : App) : App :=
  mkApp (fen_var app) st (board_frame app) (side_lbl app) (castling_lbl app)
        (ep_lbl app) (half_lbl app) (full_lbl app) (dialogs app).

Definition set_board (g : Grid) (app : App) : App :=
  mkApp (fen_var app) (lbl_status app) g (side_lbl app) (castling_lbl app)
        (ep_lbl app) (half_lbl app) (full_lbl app) (dialogs app).

Definition set_panel (rec : FenRecord) (app : App) : App :=
  mkApp (fen_var app) (lbl_status app) (board_frame app)
        (lit "Turno: "
         ++ (if str_eqb (side_to_move rec) (lit "w") then lit "Blancas"
             else lit "Negras")
         ++ lit " (" ++ side_to_move rec ++ lit ")")
        (lit "Enroques: " ++ castling rec)
        (lit "En passant: " ++ en_passant rec)
        (lit "Halfmove clock: " ++ str_int (halfmove_clock rec))
        (lit "Fullmove #: " ++ str_int (fullmove_number rec))
        (dialogs app).

Definition show (d : dialog) (app : App) : App :=
  mkApp (fen_var app) (lbl_status app) (board_frame app) (side_lbl app)
        (castling_lbl app) (ep_lbl app) (half_lbl app) (full_lbl app)
        (dialogs app ++ [d]).

Definition status_valid : str * str :=
  (lit "FEN v" ++ [0xE1%N] ++ lit "lida " ++ [0x2713%N], lit "green").

Definition title_invalid : str := lit "FEN inv" ++ [0xE1%N] ++ lit "lida".

Section Window.

Variable max_str_digits : nat.

(** [str(ex)] and [repr(ex)] for the exceptions that are not [FenError]s:
    the texts are Python's. *)
Variable str_of_exception : exn -> str.
Variable repr_of_exception : exn -> str.

(** The two [except] clauses of [on_validate]. *)
Definition on_exception (e : exn) (app : App) : App :=
  match message e with
  | Some msg =>
      show (showerror title_invalid msg) (set_status (msg, lit "red") app)
  | None =>
      show (showerror (lit "Error inesperado") (repr_of_exception e))
           (set_status (lit "Error inesperado: " ++ str_of_exception e,
                        lit "red") app)
  end.

Definition on_validate (app : App) : App :=
  let fen := strip (fen_var app) in
  match fen with
  | [] =>
      show (showinfo (lit "Informaci" ++ [0xF3%N] ++ lit "n")
                     (lit "Por favor ingresa una cadena FEN.")) app
  | _ :: _ =>
      match parse_fen max_str_digits fen with
      | Raise e => on_exception e app
      | Ok rec =>
          let app := set_status status_valid app in
          match draw_board (board rec) with
          | (g, Raise e) => on_exception e (set_board g app)
          | (g, Ok _) => set_panel rec (set_board g app)
          end
      end
  end.

End Window.

(** The label [draw_board] is to leave on square [(r, c)] for a cell. *)
Definition label_of (r c : nat) (cell : option char) : Label :=
  match cell with
  | None => empty_label r c
  | Some ch => mkLabel (fst (piece_glyph ch)) (square_bg r c)
                       (snd (piece_glyph ch))
  end.

(** [board[r][c]] when both indices are in range. *)
Definition cell_at (board : Board) (r c : nat) : option (option char) :=
  match nth_error board r with
  | Some row => nth_error row c
  | None => None
  end.

Definition board_ok (b : Board) : Prop :=
  length b = 8 /\ Forall (fun row => length row = 8 /\ Forall cell_ok row) b.

Section Outcomes.

Variable m : nat.
Variables se re : exn -> str.

(** The four ways [on_validate] ends. *)
Definition asks_for_input (app app' : App) : Prop :=
  strip (fen_var app) = [] /\
  app' = show (showinfo (lit "Informaci" ++ [0xF3%N] ++ lit "n")
                        (lit "Por favor ingresa una cadena FEN.")) app.

Definition shows_record (app app' : App) : Prop :=
  exists rec, parse_fen m (fen_var app) = Ok rec /\
    snd (draw_board (board rec)) = Ok tt /\
    app' = set_panel rec (set_board (fst (draw_board (board rec)))
                                    (set_status status_valid app)).

Definition shows_fen_error (app app' : App) : Prop :=
  exists e k msg, strip (fen_var app) <> [] /\
    parse_fen m (fen_var app) = Raise e /\
    kind e = Some k /\ message e = Some msg /\
    app' = show (showerror title_invalid msg)
                (set_status (msg, lit "red") app).

Definition shows_unexpected (app app' : App) : Prop :=
  parse_fen m (fen_var app) = Raise ValueError /\
  (exists p s c ep hm fm,
     split (fen_var app) = [p; s; c; ep; hm; fm] /\
     ((isdigit hm = true /\ int m hm = None) \/
      (isdigit fm = true /\ int m fm = None))) /\
  app' = show (showerror (lit "Error inesperado") (re ValueError))
              (set_status (lit "Error inesperado: " ++ se ValueError,
                           lit "red") app).

End Outcomes.

(** The window as it is built, with a text in the entry. *)
Definition sample_app (entry : str) : App :=
  mkApp entry (lit "Listo.", lit "#333") _build_empty_board
        (lit "Turno: -") (lit "Enroques: -") (lit "En passant: -")
        (lit "Halfmove clock: -") (lit "Fullmove #: -") [].

(** ** Sample runs of the built-ins and of the validators *)

Example builtins_agree_with_python :
  Forall (fun '(s, d, i) => isdigit s = d /\ int 4300 s = i) digit_vectors /\
  Forall (fun '(s, ts) => split (strip s) = ts) split_vectors /\
  Forall (fun '(s, ts) => split_on 47%N s = ts) split_on_vectors /\
  dec 14 = lit "14" /\ dec 0 = lit "0".
Proof. repeat constructor. Qed.

Example parse_initial_position :
  parse_fen 4300 initial_position =
  Ok (mkFenRecord
        [row_of (lit "rnbqkbnr"); row_of (lit "pppppppp"); empty_row;
         empty_row; empty_row; empty_row; row_of (lit "PPPPPPPP");
         row_of (lit "RNBQKBNR")]
        (lit "w") (lit "KQkq") (lit "-") 0 1).
Proof. reflexivity. Qed.

Example scalar_samples :
  _parse_side_to_move (lit "W") = Raise (ParseError BadSide) /\
  _parse_castling (lit "Qk") = Ok (lit "Qk") /\
  _parse_castling (lit "KK") = Raise (ParseError (DupCastling 75%N)) /\
  _parse_castling (lit "x") = Raise (LexicalError (BadCastlingChar 120%N)) /\
  _parse_halfmove_clock 4300 (lit "0") = Ok 0%Z /\
  _parse_halfmove_clock 4300 (lit "-1") = Raise (LexicalError HalfmoveNotDigits) /\
  _parse_fullmove_number 4300 (lit "0") = Raise (ParseError FullmoveTooSmall) /\
  _parse_fullmove_number 4300 (lit "1") = Ok 1%Z /\
  _parse_piece_placement (lit "8/8/8") = Raise (ParseError (RanksCount 3)).
Proof. repeat split; reflexivity. Qed.

(** ** Strings and membership *)

Lemma str_eqb_eq (a b : str) : str_eqb a b = true <-> a = b.
Proof.
  revert b; induction a as [|x a IH]; intros [|y b]; simpl; split;
    try congruence; try reflexivity.
  - intros H. apply andb_true_iff in H as [Hx Hab].
    apply N.eqb_eq in Hx. apply IH in Hab. congruence.
  - intros H. injection H as -> ->. rewrite N.eqb_refl. simpl.
    now apply IH.
Qed.

Lemma str_eqb_neq (a b : str) : str_eqb a b = false <-> a <> b.
Proof.
  rewrite <- str_eqb_eq. destruct (str_eqb a b); split; congruence.
Qed.

Lemma mem_In (c : char) (s : str) : mem c s = true <-> In c s.
Proof.
  unfold mem. rewrite existsb_exists. split.
  - intros (x & Hx & E). apply N.eqb_eq in E. now subst.
  - intros H. exists c. split; [assumption | apply N.eqb_refl].
Qed.

Lemma mem_not_In (c : char) (s : str) : mem c s = false <-> ~ In c s.
Proof.
  rewrite <- mem_In. destruct (mem c s); split; congruence.
Qed.

(** ** One rank *)

(** The scan of a rank is decided by its first illegal character: an ['8']
    gives the misuse error, any other a lexical error, and without one the
    row is the cells of the characters in order. *)
Lemma scan_rank_spec (i : nat) (rank : str) (row : Row) :
  scan_rank i rank row =
  match find illegal rank with
  | Some ch => Raise (if (ch =? 56)%N then ParseError (EightMixed i)
                      else LexicalError (BadChar ch i))
  | None => Ok (row ++ flat_map cells_of rank)
  end.
Proof.
  revert row; induction rank as [|ch rank IH]; intros row; simpl.
  - now rewrite app_nil_r.
  - unfold illegal at 1, legal, cells_of.
    destruct (mem ch ALL_PIECES) eqn:Hp; simpl.
    + rewrite IH. destruct (find illegal rank); [reflexivity|].
      now rewrite <- app_assoc.
    + destruct (mem ch DIGITS_1_7) eqn:Hd; simpl.
      * rewrite IH. destruct (find illegal rank); [reflexivity|].
        now rewrite <- app_assoc.
      * destruct (ch =? 56)%N; reflexivity.
Qed.

Lemma cells_of_ok (ch : char) : Forall cell_ok (cells_of ch).
Proof.
  unfold cells_of. destruct (mem ch ALL_PIECES) eqn:Hp.
  - constructor; [|constructor]. unfold cell_ok. now apply mem_In.
  - apply Forall_forall. intros c Hc. apply repeat_spec in Hc.
    subst. exact I.
Qed.

Lemma flat_cells_ok (rank : str) : Forall cell_ok (flat_map cells_of rank).
Proof.
  induction rank as [|ch rank IH]; simpl.
  - constructor.
  - apply Forall_app. split; [apply cells_of_ok | exact IH].
Qed.

Lemma parse_rank_ok (i : nat) (rank : str) (row : Row) :
  parse_rank i rank = Ok row -> length row = 8 /\ Forall cell_ok row.
Proof.
  unfold parse_rank. destruct (str_eqb rank (lit "8")).
  - intros H. injection H as <-. split; [reflexivity|].
    repeat constructor.
  - rewrite scan_rank_spec. destruct (find illegal rank); [discriminate|].
    simpl. destruct (length (flat_map cells_of rank) =? 8)%nat eqn:E;
      simpl; [|discriminate].
    intros H. injection H as <-. split.
    + now apply Nat.eqb_eq.
    + apply flat_cells_ok.
Qed.

(** How decoding a rank fails: on its first illegal character if it has
    one, else on the length of the row. *)
Lemma parse_rank_raise (i : nat) (rank : str) (e : exn) :
  parse_rank i rank = Raise e ->
  match find illegal rank with
  | Some ch => e = if (ch =? 56)%N then ParseError (EightMixed i)
                   else LexicalError (BadChar ch i)
  | None => length (flat_map cells_of rank) <> 8 /\
            e = ParseError (RowSum i (length (flat_map cells_of rank)))
  end.
Proof.
  unfold parse_rank. destruct (str_eqb rank (lit "8")); [discriminate|].
  rewrite scan_rank_spec. destruct (find illegal rank).
  - congruence.
  - simpl. destruct (length (flat_map cells_of rank) =? 8)%nat eqn:E;
      simpl; [discriminate|].
    intros H. injection H as <-. split; [|reflexivity].
    now apply Nat.eqb_neq.
Qed.

Lemma parse_rank_illegal (i : nat) (rank : str) (ch : char) :
  rank <> lit "8" -> find illegal rank = Some ch ->
  parse_rank i rank = Raise (if (ch =? 56)%N then ParseError (EightMixed i)
                             else LexicalError (BadChar ch i)).
Proof.
  intros Hne Hf. unfold parse_rank.
  apply str_eqb_neq in Hne. rewrite Hne, scan_rank_spec, Hf. reflexivity.
Qed.

Lemma find_illegal_after_legal (before : str) (ch : char) (after : str) :
  forallb legal before = true -> illegal ch = true ->
  find illegal (before ++ ch :: after) = Some ch.
Proof.
  intros Hb Hch. induction before as [|c before IH]; simpl in *.
  - now rewrite Hch.
  - apply andb_true_iff in Hb as [Hc Hb]. unfold illegal at 1.
    rewrite Hc. simpl. now apply IH.
Qed.

(** ** The loop over the ranks *)

Lemma ranks_ok_nil (i : nat) : ranks_ok i [].
Proof. intros [|j] rank H; discriminate. Qed.

Lemma ranks_ok_cons (i : nat) (rank : str) (ranks : list str) :
  ranks_ok i (rank :: ranks) <->
  (exists row, parse_rank i rank = Ok row) /\ ranks_ok (S i) ranks.
Proof.
  unfold ranks_ok. split.
  - intros H. split.
    + specialize (H 0 rank eq_refl). now rewrite Nat.add_0_r in H.
    + intros j r Hj. specialize (H (S j) r Hj).
      now rewrite Nat.add_succ_r in H.
  - intros [H0 H] [|j] r Hj; simpl in Hj.
    + injection Hj as <-. now rewrite Nat.add_0_r.
    + rewrite Nat.add_succ_r. now apply H.
Qed.

(** The loop stops at the first rank that does not decode, with the
    exception of that rank. *)
Lemma parse_ranks_first_failure (i : nat) (pre : list str) (rank : str)
      (suf : list str) (b : Board) (e : exn) :
  ranks_ok i pre -> parse_rank (i + length pre) rank = Raise e ->
  parse_ranks i (pre ++ rank :: suf) b = Raise e.
Proof.
  revert i b; induction pre as [|r pre IH]; intros i b Hok He; simpl in *.
  - rewrite Nat.add_0_r in He. now rewrite He.
  - apply ranks_ok_cons in Hok as [[row Hr] Hok]. rewrite Hr.
    apply IH; [assumption|]. now rewrite Nat.add_succ_r in He.
Qed.

Lemma parse_ranks_raise (i : nat) (ranks : list str) (b : Board) (e : exn) :
  parse_ranks i ranks b = Raise e ->
  exists pre rank suf,
    ranks = pre ++ rank :: suf /\ ranks_ok i pre /\
    parse_rank (i + length pre) rank = Raise e.
Proof.
  revert i b; induction ranks as [|r ranks IH]; intros i b; simpl.
  - discriminate.
  - destruct (parse_rank i r) as [row|e'] eqn:Hr.
    + intros H. apply IH in H as (pre & rank & suf & -> & Hok & He).
      exists (r :: pre), rank, suf. split; [reflexivity|]. split.
      * apply ranks_ok_cons. split; [now exists row | assumption].
      * simpl. now rewrite Nat.add_succ_r.
    + intros H. injection H as <-. exists [], r, ranks.
      split; [reflexivity|]. split; [apply ranks_ok_nil|].
      simpl. now rewrite Nat.add_0_r.
Qed.

Lemma parse_ranks_ok (i : nat) (ranks : list str) (b b' : Board) :
  parse_ranks i ranks b = Ok b' ->
  exists rows, b' = b ++ rows /\ length rows = length ranks /\
               Forall (fun row => length row = 8 /\ Forall cell_ok row) rows.
Proof.
  revert i b; induction ranks as [|r ranks IH]; intros i b; simpl.
  - intros H. injection H as <-. exists []. rewrite app_nil_r.
    repeat split. constructor.
  - destruct (parse_rank i r) as [row|e'] eqn:Hr; [|discriminate].
    intros H. apply IH in H as (rows & -> & Hlen & Hall).
    exists (row :: rows). rewrite <- app_assoc. simpl.
    repeat split; [now rewrite Hlen|].
    constructor; [now apply parse_rank_ok in Hr | assumption].
Qed.

Lemma placement_ranks (placement : str) :
  length (split_on 47%N placement) = 8 ->
  _parse_piece_placement placement = parse_ranks 1 (split_on 47%N placement) [].
Proof.
  intros H. unfold _parse_piece_placement. now rewrite H.
Qed.

Lemma placement_ok (placement : str) (b : Board) :
  _parse_piece_placement placement = Ok b ->
  length b = 8 /\ Forall (fun row => length row = 8 /\ Forall cell_ok row) b.
Proof.
  unfold _parse_piece_placement.
  destruct (length (split_on 47%N placement) =? 8)%nat eqn:E; simpl;
    [|discriminate].
  apply Nat.eqb_eq in E. intros H.
  apply parse_ranks_ok in H as (rows & -> & Hlen & Hall). simpl.
  split; [congruence | assumption].
Qed.

(** ** Digits and [int] *)

Lemma in_runs_spec (c : char) (rs : list (N * N)) :
  in_runs c rs = true <->
  exists r, In r rs /\ (fst r <= c)%N /\ (c <= snd r)%N.
Proof.
  unfold in_runs, in_run. rewrite existsb_exists.
  split; intros (r & Hr & H); exists r; split; try assumption.
  - apply andb_true_iff in H as [H1 H2].
    now apply N.leb_le in H1; apply N.leb_le in H2.
  - destruct H as [H1 H2]. apply andb_true_iff.
    now split; apply N.leb_le.
Qed.

(** The only digits below 128 are ['0'] to ['9']. *)
Lemma isdigit_char_ascii (c : char) :
  isdigit_char c = true -> (c < 128)%N -> is_ascii_digit c = true.
Proof.
  intros Hd Hc.
  assert (T : forallb (fun r => (128 <=? fst r) || ((48 <=? fst r) && (snd r <=? 57)))%N
                      (decimal_runs ++ digit_only_runs) = true)
    by (vm_compute; reflexivity).
  assert (R : in_runs c (decimal_runs ++ digit_only_runs) = true).
  { unfold in_runs. rewrite existsb_app. exact Hd. }
  apply in_runs_spec in R as (r & Hr & Hlo & Hhi).
  rewrite forallb_forall in T. specialize (T r Hr).
  apply orb_true_iff in T as [T|T].
  - apply N.leb_le in T. lia.
  - apply andb_true_iff in T as [T1 T2].
    apply N.leb_le in T1. apply N.leb_le in T2.
    unfold is_ascii_digit. apply andb_true_iff.
    split; apply N.leb_le; lia.
Qed.

(** No character of a digit-only string turns into a minus sign. *)
Lemma to_ascii_digits_no_minus (s : str) :
  forallb isdigit_char s = true ->
  Forall (fun c => c <> 45%N) (to_ascii_digits s).
Proof.
  induction s as [|c s IH]; cbn [forallb to_ascii_digits]; intros H.
  - constructor.
  - apply andb_true_iff in H as [Hc Hs]. specialize (IH Hs).
    destruct (c <? 128)%N eqn:Hlt.
    + constructor; [|assumption]. apply N.ltb_lt in Hlt.
      pose proof (isdigit_char_ascii c Hc Hlt) as Hd.
      unfold is_ascii_digit in Hd. apply andb_true_iff in Hd as [H1 _].
      apply N.leb_le in H1. lia.
    + destruct (isspace_char c).
      * constructor; [discriminate | assumption].
      * destruct (decimal_value c) as [d|].
        -- constructor; [lia | assumption].
        -- constructor; [discriminate | constructor].
Qed.

Lemma lstrip_c_Forall (P : char -> Prop) (a : str) :
  Forall P a -> Forall P (lstrip_c a).
Proof.
  induction 1 as [|c a Hc Ha IH]; simpl; [constructor|].
  destruct (is_c_space c); [assumption | now constructor].
Qed.

Lemma value_from_nonneg (ds : list N) (v : Z) :
  (0 <= v)%Z -> (0 <= fold_left (fun v d => 10 * v + Z.of_N d) ds v)%Z.
Proof.
  revert v; induction ds as [|d ds IH]; intros v Hv; cbn [fold_left].
  - assumption.
  - apply IH. pose proof (N2Z.is_nonneg d). lia.
Qed.

Lemma value_nonneg (ds : list N) : (0 <= value ds)%Z.
Proof. apply value_from_nonneg. lia. Qed.

(** [int] gives a negative number only to a literal with a minus sign. *)
Lemma int_no_minus_nonneg (m : nat) (s : str) (v : Z) :
  Forall (fun c => c <> 45%N) (to_ascii_digits s) ->
  int m s = Some v -> (0 <= v)%Z.
Proof.
  intros Hs. apply lstrip_c_Forall in Hs. unfold int.
  destruct (lstrip_c (to_ascii_digits s)) as [|c r]; [discriminate|].
  inversion Hs as [|? ? Hc _]; subst.
  apply N.eqb_neq in Hc. rewrite Hc.
  assert (G : forall a : str,
             match a with
             | [] => None
             | c0 :: _ =>
                 if (c0 =? 95)%N then None
                 else match scan_digits false a [] with
                      | None => None
                      | Some (ds, rest) =>
                          if negb (forallb is_c_space rest) then None
                          else match ds with
                               | [] => None
                               | _ :: _ =>
                                   if ((0 <? m) && (m <? length ds))%nat
                                   then None else Some (value ds)
                               end
                      end
             end = Some v -> (0 <= v)%Z).
  { intros [|c0 a0]; [discriminate|].
    destruct (c0 =? 95)%N; [discriminate|].
    destruct (scan_digits false (c0 :: a0) []) as [[ds rest]|]; [|discriminate].
    destruct (negb (forallb is_c_space rest)); [discriminate|].
    destruct ds as [|d ds]; [discriminate|].
    destruct ((0 <? m) && (m <? length (d :: ds)))%nat; [discriminate|].
    intros H. injection H as <-. apply value_nonneg. }
  destruct (c =? 43)%N; cbv beta iota zeta;
    [exact (G r) | exact (G (c :: r))].
Qed.

Lemma isdigit_forallb (s : str) :
  isdigit s = true -> forallb isdigit_char s = true.
Proof. destruct s; [discriminate | trivial]. Qed.

Lemma int_isdigit_nonneg (m : nat) (s : str) (v : Z) :
  isdigit s = true -> int m s = Some v -> (0 <= v)%Z.
Proof.
  intros Hd. apply int_no_minus_nonneg.
  now apply to_ascii_digits_no_minus, isdigit_forallb.
Qed.

(** On a non-empty string of ASCII digits that respects the length limit
    [int] succeeds, with the value of the digits. *)
Lemma scan_digits_all (s : str) (acc : list N) :
  forallb is_ascii_digit s = true ->
  scan_digits false s acc = Some (acc ++ map (fun c => (c - 48)%N) s, []).
Proof.
  revert acc; induction s as [|c s IH]; intros acc H; simpl in *.
  - now rewrite app_nil_r.
  - apply andb_true_iff in H as [Hc Hs]. rewrite Hc, IH by assumption.
    now rewrite <- app_assoc.
Qed.

Lemma to_ascii_digits_ascii (s : str) :
  forallb is_ascii_digit s = true -> to_ascii_digits s = s.
Proof.
  induction s as [|c s IH]; simpl; intros H; [reflexivity|].
  apply andb_true_iff in H as [Hc Hs]. rewrite IH by assumption.
  unfold is_ascii_digit in Hc. apply andb_true_iff in Hc as [_ H2].
  apply N.leb_le in H2.
  assert (L : (c <? 128)%N = true) by (apply N.ltb_lt; lia).
  now rewrite L.
Qed.

Lemma int_ascii_digits (m : nat) (s : str) :
  s <> [] -> forallb is_ascii_digit s = true ->
  (m = 0 \/ length s <= m) ->
  int m s = Some (value (map (fun c => (c - 48)%N) s)).
Proof.
  intros Hne Hs Hm. unfold int. rewrite to_ascii_digits_ascii by assumption.
  destruct s as [|c s]; [congruence|].
  pose proof Hs as Hs'. cbn [forallb] in Hs'.
  apply andb_true_iff in Hs' as [Hc _].
  unfold is_ascii_digit in Hc. apply andb_true_iff in Hc as [H1 H2].
  apply N.leb_le in H1. apply N.leb_le in H2.
  assert (Hsp : is_c_space c = false).
  { unfold is_c_space. apply orb_false_iff. split.
    - apply andb_false_iff. right. apply N.leb_gt. lia.
    - apply N.eqb_neq. lia. }
  cbn [lstrip_c]. rewrite Hsp.
  assert (E45 : (c =? 45)%N = false) by (apply N.eqb_neq; lia).
  assert (E43 : (c =? 43)%N = false) by (apply N.eqb_neq; lia).
  assert (E95 : (c =? 95)%N = false) by (apply N.eqb_neq; lia).
  rewrite E45, E43, E95, scan_digits_all by assumption.
  cbn [app forallb negb map].
  assert (L : ((0 <? m) && (m <? length ((c - 48)%N :: map (fun c0 => (c0 - 48)%N) s)))%nat
              = false).
  { cbn [length]. rewrite length_map. cbn [length] in Hm.
    apply andb_false_iff. destruct Hm as [-> | Hm].
    - left. reflexivity.
    - right. apply Nat.ltb_ge. exact Hm. }
  now rewrite L.
Qed.

(** ** The halfmove clock *)

Lemma halfmove_not_digits (m : nat) (hm : str) :
  isdigit hm = false ->
  _parse_halfmove_clock m hm = Raise (LexicalError HalfmoveNotDigits).
Proof. intros H. unfold _parse_halfmove_clock. now rewrite H. Qed.

Lemma halfmove_digits (m : nat) (hm : str) (v : Z) :
  isdigit hm = true -> int m hm = Some v ->
  _parse_halfmove_clock m hm = Ok v /\ (0 <= v)%Z.
Proof.
  intros Hd Hv. pose proof (int_isdigit_nonneg m hm v Hd Hv) as Hnn.
  unfold _parse_halfmove_clock. rewrite Hd, Hv. simpl.
  destruct (v <? 0)%Z eqn:E; [apply Z.ltb_lt in E; lia | now split].
Qed.

Lemma halfmove_never_parse_error (m : nat) (hm : str) (d : diagnostic) :
  _parse_halfmove_clock m hm <> Raise (ParseError d).
Proof.
  unfold _parse_halfmove_clock.
  destruct (isdigit hm) eqn:Hd; simpl; [|discriminate].
  destruct (int m hm) as [v|] eqn:Hv; [|discriminate].
  pose proof (int_isdigit_nonneg m hm v Hd Hv) as Hnn.
  destruct (v <? 0)%Z eqn:E; [apply Z.ltb_lt in E; lia | discriminate].
Qed.

(** ** The field splitter *)

Lemma split_cons (c : char) (s : str) :
  split (c :: s) =
  if isspace_char c then split s
  else match s with
       | [] => [[c]]
       | d :: _ =>
           if isspace_char d then [c] :: split s
           else match split s with
                | w :: ws => (c :: w) :: ws
                | [] => [[c]]
                end
       end.
Proof. reflexivity. Qed.

Lemma split_ws (c : char) (s : str) :
  isspace_char c = true -> split (c :: s) = split s.
Proof. intros H. rewrite split_cons. now rewrite H. Qed.

(** A token is cut where the whitespace after it starts. *)
Lemma split_token (t rest : str) :
  t <> [] ->
  Forall (fun c => isspace_char c = false) t ->
  match rest with [] => True | w :: _ => isspace_char w = true end ->
  split (t ++ rest) = t :: split rest.
Proof.
  intros Hne Ht Hrest. induction t as [|c t IH]; [congruence|].
  inversion Ht as [|? ? Hc Ht']; subst.
  change ((c :: t) ++ rest) with (c :: t ++ rest).
  rewrite split_cons, Hc.
  destruct t as [|d t].
  - cbn [app]. destruct rest as [|w rest]; [reflexivity|].
    now rewrite Hrest.
  - assert (E : split ((d :: t) ++ rest) = (d :: t) :: split rest)
      by (apply IH; [discriminate | assumption]).
    inversion Ht' as [|? ? Hd _]; subst.
    rewrite E. change ((d :: t) ++ rest) with (d :: t ++ rest).
    cbv beta iota. now rewrite Hd.
Qed.

Lemma split_tokens (s : str) :
  Forall (fun t => t <> [] /\ Forall (fun c => isspace_char c = false) t)
         (split s).
Proof.
  induction s as [|c s IH]; [constructor|]. rewrite split_cons.
  destruct (isspace_char c) eqn:Hc; [assumption|].
  destruct s as [|d s]; [repeat constructor; [discriminate | assumption]|].
  destruct (isspace_char d) eqn:Hd.
  - constructor; [|assumption].
    split; [discriminate | repeat constructor; assumption].
  - destruct (split (d :: s)) as [|w ws].
    + repeat constructor; [discriminate | assumption].
    + inversion IH as [|? ? [Hw1 Hw2] Hws]; subst.
      constructor; [|assumption].
      split; [discriminate | now constructor].
Qed.

Lemma split_lstrip (s : str) : split (lstrip s) = split s.
Proof.
  induction s as [|c s IH]; [reflexivity|]. cbn [lstrip].
  destruct (isspace_char c) eqn:Hc; [|reflexivity].
  now rewrite split_ws.
Qed.

Lemma split_app_ws (s : str) (c : char) :
  isspace_char c = true -> split (s ++ [c]) = split s.
Proof.
  intros Hc. induction s as [|x s IH].
  - cbn [app]. now rewrite split_ws.
  - change ((x :: s) ++ [c]) with (x :: s ++ [c]).
    rewrite !(split_cons x), IH.
    destruct (isspace_char x); [reflexivity|].
    destruct s as [|d s]; cbn [app]; [now rewrite Hc | reflexivity].
Qed.

Lemma split_rstrip (s : str) : split (rstrip s) = split s.
Proof.
  unfold rstrip. rewrite <- (rev_involutive s) at 2.
  induction (rev s) as [|c r IH]; [reflexivity|]. cbn [lstrip].
  destruct (isspace_char c) eqn:Hc; [|reflexivity].
  cbn [rev]. now rewrite split_app_ws.
Qed.

(** Trimming first changes nothing for the tokens. *)
Lemma split_strip (s : str) : split (strip s) = split s.
Proof. unfold strip. now rewrite split_rstrip, split_lstrip. Qed.

(** ** The record assembler *)

Lemma six_parts (parts : list str) :
  length parts = 6 ->
  exists p s c ep hm fm, parts = [p; s; c; ep; hm; fm].
Proof.
  intros H.
  destruct parts as [|p [|s [|c [|ep [|hm [|fm [|x rest]]]]]]];
    try discriminate.
  now exists p, s, c, ep, hm, fm.
Qed.

(** [parse_fen] calls the validators in the order of the fields and stops
    at the first that raises: its log is the independent outcomes cut after
    the first violation, and it raises exactly that violation. *)
Lemma parse_fen_logged_spec (m : nat) (fen : str) :
  fst (parse_fen_logged m fen)
  = until_first_violation (outcomes m (split (strip fen))) /\
  (forall e, parse_fen m fen = Raise e <->
             first_violation (outcomes m (split (strip fen))) = Some e).
Proof.
  unfold parse_fen, parse_fen_logged, outcomes, _validate_fields_count.
  destruct (length (split (strip fen)) =? 6)%nat eqn:E; cbn [negb].
  - apply Nat.eqb_eq in E.
    destruct (six_parts _ E) as (p & s & c & ep & hm & fm & ->).
    unfold bind, call.
    destruct (_parse_piece_placement p) as [b|e1];
      [destruct (_parse_side_to_move s) as [s'|e2];
       [destruct (_parse_castling c) as [c'|e3];
        [destruct (_parse_en_passant ep) as [ep'|e4];
         [destruct (_parse_halfmove_clock m hm) as [h|e5];
          [destruct (_parse_fullmove_number m fm) as [f|e6]|]|]|]|]|];
      cbn; (split; [reflexivity|]); intros e; split; congruence.
  - cbn. split; [reflexivity|]. intros e; split; congruence.
Qed.

Lemma parse_fen_ok (m : nat) (fen : str) (r : FenRecord) :
  parse_fen m fen = Ok r ->
  exists p s c ep hm fm,
    split (strip fen) = [p; s; c; ep; hm; fm] /\
    _parse_piece_placement p = Ok (board r) /\
    _parse_side_to_move s = Ok (side_to_move r) /\
    _parse_castling c = Ok (castling r) /\
    _parse_en_passant ep = Ok (en_passant r) /\
    _parse_halfmove_clock m hm = Ok (halfmove_clock r) /\
    _parse_fullmove_number m fm = Ok (fullmove_number r).
Proof.
  unfold parse_fen, parse_fen_logged, _validate_fields_count.
  destruct (length (split (strip fen)) =? 6)%nat eqn:E; cbn [negb];
    [|discriminate].
  apply Nat.eqb_eq in E.
  destruct (six_parts _ E) as (p & s & c & ep & hm & fm & ->).
  unfold bind, call.
  destruct (_parse_piece_placement p) as [b|e1] eqn:H1; [|discriminate].
  destruct (_parse_side_to_move s) as [s'|e2] eqn:H2; [|discriminate].
  destruct (_parse_castling c) as [c'|e3] eqn:H3; [|discriminate].
  destruct (_parse_en_passant ep) as [ep'|e4] eqn:H4; [|discriminate].
  destruct (_parse_halfmove_clock m hm) as [h|e5] eqn:H5; [|discriminate].
  destruct (_parse_fullmove_number m fm) as [f|e6] eqn:H6; [|discriminate].
  cbn. intros H. injection H as <-. cbn.
  exists p, s, c, ep, hm, fm. repeat split; assumption.
Qed.

(** ** Castling *)

Lemma castling_loop_ok (rest : str) (seen : list char) :
  NoDup rest -> (forall ch, In ch rest -> In ch (lit "KQkq")) ->
  (forall ch, In ch rest -> ~ In ch seen) ->
  castling_loop rest seen = Ok tt.
Proof.
  revert seen; induction rest as [|ch rest IH]; intros seen Hnd Hv Hs;
    cbn [castling_loop]; [reflexivity|].
  inversion Hnd as [|? ? Hnotin Hnd']; subst.
  assert (V : mem ch (lit "KQkq") = true) by (apply mem_In, Hv; now left).
  assert (S : mem ch seen = false) by (apply mem_not_In, Hs; now left).
  rewrite V, S. cbn [negb]. apply IH.
  - assumption.
  - intros c Hc. apply Hv. now right.
  - intros c Hc [<- | Hin]; [contradiction|].
    apply (Hs c); [now right | assumption].
Qed.

Lemma castling_loop_inv (rest : str) (seen : list char) :
  castling_loop rest seen = Ok tt ->
  NoDup rest /\ (forall ch, In ch rest -> In ch (lit "KQkq")) /\
  (forall ch, In ch rest -> ~ In ch seen).
Proof.
  revert seen; induction rest as [|ch rest IH]; intros seen;
    cbn [castling_loop].
  - intros _. split; [constructor|]. split; intros ch [].
  - destruct (mem ch (lit "KQkq")) eqn:V; cbn [negb]; [|discriminate].
    destruct (mem ch seen) eqn:S; [discriminate|].
    intros H. apply IH in H as (Hnd & Hv & Hs).
    apply mem_In in V. apply mem_not_In in S.
    split; [|split].
    + constructor; [|assumption]. intros Hin.
      apply (Hs ch Hin). now left.
    + intros c [<- | Hc]; [assumption | now apply Hv].
    + intros c [<- | Hc]; [assumption|].
      intros Hin. apply (Hs c Hc). now right.
Qed.

Lemma castling_returns_input (c v : str) :
  _parse_castling c = Ok v -> v = c.
Proof.
  unfold _parse_castling. destruct (str_eqb c (lit "-")); [congruence|].
  destruct (castling_loop c []); congruence.
Qed.

Lemma ranks_okb_sound (i : nat) (ranks : list str) :
  ranks_okb i ranks = true -> ranks_ok i ranks.
Proof.
  revert i; induction ranks as [|rank ranks IH]; intros i H.
  - apply ranks_ok_nil.
  - cbn [ranks_okb] in H. apply ranks_ok_cons.
    destruct (parse_rank i rank) as [row|e]; [|discriminate].
    split; [now exists row | now apply IH].
Qed.

Lemma parse_rank_empty (i : nat) :
  parse_rank i [] = Raise (ParseError (RowSum i 0)).
Proof. reflexivity. Qed.

Lemma ranks_ok_no_empty (i : nat) (ranks : list str) :
  ranks_ok i ranks -> ~ In [] ranks.
Proof.
  intros Hok Hin. apply In_nth_error in Hin as [j Hj].
  destruct (Hok j [] Hj) as [row Hrow].
  rewrite parse_rank_empty in Hrow. discriminate.
Qed.

Lemma illegal_eight : illegal 56%N = true.
Proof. reflexivity. Qed.

(** ** Which exceptions carry a classification *)

Lemma placement_raise_kind (placement : str) (e : exn) :
  _parse_piece_placement placement = Raise e -> kind e <> None.
Proof.
  unfold _parse_piece_placement.
  destruct (length (split_on 47%N placement) =? 8)%nat; cbn [negb].
  - intros H. apply parse_ranks_raise in H as (pre & rank & suf & _ & _ & H).
    apply parse_rank_raise in H. destruct (find illegal rank) as [ch|].
    + subst e. destruct (ch =? 56)%N; discriminate.
    + destruct H as [_ ->]. discriminate.
  - intros H. injection H as <-. discriminate.
Qed.

Lemma castling_loop_raise_kind (rest : str) (seen : list char) (e : exn) :
  castling_loop rest seen = Raise e -> kind e <> None.
Proof.
  revert seen; induction rest as [|ch rest IH]; intros seen;
    cbn [castling_loop]; [discriminate|].
  destruct (mem ch (lit "KQkq")); cbn [negb].
  - destruct (mem ch seen); [|apply IH].
    intros H. injection H as <-. discriminate.
  - intros H. injection H as <-. discriminate.
Qed.

Lemma castling_raise_kind (c : str) (e : exn) :
  _parse_castling c = Raise e -> kind e <> None.
Proof.
  unfold _parse_castling. destruct (str_eqb c (lit "-")); [discriminate|].
  destruct (castling_loop c []) as [[]|e'] eqn:L; [discriminate|].
  intros H. injection H as <-. now apply castling_loop_raise_kind in L.
Qed.

Lemma en_passant_raise_kind (ep : str) (e : exn) :
  _parse_en_passant ep = Raise e -> kind e <> None.
Proof.
  unfold _parse_en_passant. destruct (str_eqb ep (lit "-")); [discriminate|].
  destruct ep as [|f [|r [|x ep]]]; cbn [length Nat.eqb negb nth_error];
    try (intros H; injection H as <-; discriminate).
  destruct (mem f (lit "abcdefgh")); cbn [negb];
    [|intros H; injection H as <-; discriminate].
  destruct (mem r (lit "36")); cbn [negb]; [discriminate|].
  intros H. injection H as <-. discriminate.
Qed.

Lemma halfmove_raise_kind (m : nat) (hm : str) (e : exn) :
  _parse_halfmove_clock m hm = Raise e ->
  kind e <> None \/ (e = ValueError /\ isdigit hm = true /\ int m hm = None).
Proof.
  unfold _parse_halfmove_clock. destruct (isdigit hm); cbn [negb].
  - destruct (int m hm) as [v|].
    + destruct (v <? 0)%Z; [|discriminate].
      intros H. injection H as <-. left. discriminate.
    + intros H. injection H as <-. now right.
  - intros H. injection H as <-. left. discriminate.
Qed.

Lemma fullmove_raise_kind (m : nat) (fn : str) (e : exn) :
  _parse_fullmove_number m fn = Raise e ->
  kind e <> None \/ (e = ValueError /\ isdigit fn = true /\ int m fn = None).
Proof.
  unfold _parse_fullmove_number. destruct (isdigit fn); cbn [negb].
  - destruct (int m fn) as [v|].
    + destruct (v <? 1)%Z; [|discriminate].
      intros H. injection H as <-. left. discriminate.
    + intros H. injection H as <-. now right.
  - intros H. injection H as <-. left. discriminate.
Qed.

(** The only exception of [parse_fen] without a classification is the
    [ValueError] of [int] on a numeric field that passed [isdigit]. *)
Lemma parse_fen_unclassified (m : nat) (fen : str) (e : exn) :
  parse_fen m fen = Raise e -> kind e = None ->
  e = ValueError /\
  exists p s c ep hm fm,
    split (strip fen) = [p; s; c; ep; hm; fm] /\
    ((isdigit hm = true /\ int m hm = None) \/
     (isdigit fm = true /\ int m fm = None)).
Proof.
  unfold parse_fen, parse_fen_logged, _validate_fields_count.
  destruct (length (split (strip fen)) =? 6)%nat eqn:E; cbn [negb];
    [|cbn; intros H; injection H as <-; discriminate].
  apply Nat.eqb_eq in E.
  destruct (six_parts _ E) as (p & s & c & ep & hm & fm & ->).
  unfold bind, call.
  destruct (_parse_piece_placement p) as [b|e1] eqn:H1.
  2:{ cbn. intros H K. injection H as <-.
      now apply placement_raise_kind in H1. }
  destruct (_parse_side_to_move s) as [s'|e2] eqn:H2.
  2:{ cbn. intros H K. injection H as <-. unfold _parse_side_to_move in H2.
      destruct (negb _) in H2; [|discriminate].
      injection H2 as <-. discriminate. }
  destruct (_parse_castling c) as [c'|e3] eqn:H3.
  2:{ cbn. intros H K. injection H as <-.
      now apply castling_raise_kind in H3. }
  destruct (_parse_en_passant ep) as [ep'|e4] eqn:H4.
  2:{ cbn. intros H K. injection H as <-.
      now apply en_passant_raise_kind in H4. }
  destruct (_parse_halfmove_clock m hm) as [h|e5] eqn:H5.
  2:{ cbn. intros H K. injection H as <-.
      apply halfmove_raise_kind in H5 as [H5 | (-> & Hd & Hi)];
        [contradiction|].
      split; [reflexivity|]. exists p, s, c, ep, hm, fm. now auto. }
  destruct (_parse_fullmove_number m fm) as [f|e6] eqn:H6; [discriminate|].
  cbn. intros H K. injection H as <-.
  apply fullmove_raise_kind in H6 as [H6 | (-> & Hd & Hi)]; [contradiction|].
  split; [reflexivity|]. exists p, s, c, ep, hm, fm. now auto.
Qed.

Lemma ascii_digits_isdigit (s : str) :
  s <> [] -> forallb is_ascii_digit s = true -> isdigit s = true.
Proof.
  intros Hne H. destruct s as [|c s]; [congruence|].
  unfold isdigit. apply forallb_forall. intros x Hx.
  rewrite forallb_forall in H. specialize (H x Hx).
  unfold isdigit_char, isdecimal_char, in_runs, decimal_runs.
  cbn [existsb]. unfold in_run at 1. cbn [fst snd].
  unfold is_ascii_digit in H. now rewrite H.
Qed.

(** ** The placement decoder and the digit 8 *)

(** C1, as the code has it: a rank that is exactly ["8"] decodes to eight
    empty cells.  A rank other than ["8"] that contains an ['8'] never
    decodes; the scan stops at its first character that is neither a piece
    letter nor a digit from 1 to 7, with the SYNTACTIC (PARSE) misuse error
    when that character is the ['8'] and with a LEXICAL error naming the
    character otherwise.  ["44"] decodes to eight empty cells and ["3p8"]
    fails with the SYNTACTIC error, alone and inside a placement. *)
Theorem C1_eight_only_as_whole_rank (i : nat) :
  parse_rank i (lit "8") = Ok (repeat None 8) /\
  (forall rank, rank <> lit "8" -> In 56%N rank ->
     exists ch, find illegal rank = Some ch /\
       parse_rank i rank =
       Raise (if (ch =? 56)%N then ParseError (EightMixed i)
              else LexicalError (BadChar ch i))) /\
  parse_rank i (lit "44") = Ok (repeat None 8) /\
  parse_rank i (lit "3p8") = Raise (ParseError (EightMixed i)) /\
  _parse_piece_placement (lit "44/8/8/8/8/8/8/8") = Ok (repeat (repeat None 8) 8) /\
  _parse_piece_placement (lit "8/8/3p8/8/8/8/8/8") = Raise (ParseError (EightMixed 3)).
Proof.
  split; [reflexivity|]. split; [|repeat split; reflexivity].
  intros rank Hne Hin.
  destruct (find illegal rank) as [ch|] eqn:Hf.
  - exists ch. split; [reflexivity|]. now apply parse_rank_illegal.
  - pose proof (find_none _ _ Hf _ Hin) as H.
    rewrite illegal_eight in H. discriminate.
Qed.

(** C1 as the specification words it fails: the rank ["x8"] is not ["8"] and
    contains an ['8'], yet its error is LEXICAL, for the ['x'] met first. *)
Lemma C1_counterexample :
  let rank := lit "x8" in
  rank <> lit "8" /\ In 56%N rank /\
  parse_rank 1 rank = Raise (LexicalError (BadChar 120%N 1)) /\
  (forall d, parse_rank 1 rank <> Raise (ParseError d)) /\
  _parse_piece_placement (lit "x8/8/8/8/8/8/8/8")
  = Raise (LexicalError (BadChar 120%N 1)).
Proof.
  cbv zeta. split; [discriminate|]. split; [right; left; reflexivity|].
  split; [reflexivity|]. split; [|reflexivity].
  intros d. discriminate.
Qed.

Lemma C1_witness :
  exists ch, find illegal (lit "3p8") = Some ch /\
    parse_rank 1 (lit "3p8") =
    Raise (if (ch =? 56)%N then ParseError (EightMixed 1)
           else LexicalError (BadChar ch 1)).
Proof.
  apply (proj1 (proj2 (C1_eight_only_as_whole_rank 1))).
  - discriminate.
  - right; right; left; reflexivity.
Defined.

(** ** Errors that are not classified *)

(** C2 fails on the code: a halfmove clock written with the superscript
    two (U+00B2) passes [isdigit], then [int] raises [ValueError], which is
    neither a record nor a [FenError] and carries no classification. *)
Theorem C2_unclassified_failure (m : nat) :
  let fen := lit "8/8/8/8/8/8/8/8 w - - " ++ [0xB2%N] ++ lit " 1" in
  isdigit [0xB2%N] = true /\ int m [0xB2%N] = None /\
  parse_fen m fen = Raise ValueError /\
  kind ValueError = None /\
  fst (parse_fen_logged m fen)
  = [(Vfields_count, Returned); (Vpiece_placement, Returned);
     (Vside_to_move, Returned); (Vcastling, Returned);
     (Ven_passant, Returned); (Vhalfmove_clock, Raised ValueError)].
Proof. cbv zeta. repeat split. Qed.

(** ** The shape of the board *)

(** C3: when validation succeeds the board has eight rows, every row has
    eight cells, and every cell is empty or holds one of the twelve piece
    letters. *)
Theorem C3_board_is_8_by_8 (m : nat) (fen : str) (r : FenRecord) :
  parse_fen m fen = Ok r ->
  length (board r) = 8 /\
  Forall (fun row => length row = 8 /\ Forall cell_ok row) (board r).
Proof.
  intros H. apply parse_fen_ok in H as (p & _ & _ & _ & _ & _ & _ & Hp & _).
  now apply placement_ok in Hp.
Qed.

Lemma C3_witness :
  exists r, parse_fen 4300 initial_position = Ok r /\
    length (board r) = 8 /\
    Forall (fun row => length row = 8 /\ Forall cell_ok row) (board r).
Proof.
  eexists. split; [reflexivity|].
  apply (C3_board_is_8_by_8 4300 initial_position). reflexivity.
Defined.

(** ** Fail-fast validation *)

(** C4: validation stops at the first violation.  Over the fields: the
    validators that run are those of the fixed order up to the first one
    that raises, and [parse_fen] raises what that one raised.  Over the
    ranks of a placement with eight of them: the error is that of the
    first rank that does not decode.  Inside a rank: the error is decided
    by the first character that is neither a piece letter nor a digit from
    1 to 7, and by the length of the row when there is none.  The record
    with a long first rank and a ['C'] in the fifth reports the length
    of row 1. *)
Theorem C4_fail_fast (m : nat) :
  (forall parts, length parts = 6 ->
     map fst (outcomes m parts) = validation_order) /\
  (forall fen,
     fst (parse_fen_logged m fen)
     = until_first_violation (outcomes m (split (strip fen))) /\
     forall e, parse_fen m fen = Raise e <->
               first_violation (outcomes m (split (strip fen))) = Some e) /\
  (forall placement e,
     length (split_on 47%N placement) = 8 ->
     (_parse_piece_placement placement = Raise e <->
      exists pre rank suf,
        split_on 47%N placement = pre ++ rank :: suf /\ ranks_ok 1 pre /\
        parse_rank (1 + length pre) rank = Raise e)) /\
  (forall i rank e,
     parse_rank i rank = Raise e ->
     match find illegal rank with
     | Some ch => e = if (ch =? 56)%N then ParseError (EightMixed i)
                      else LexicalError (BadChar ch i)
     | None => length (flat_map cells_of rank) <> 8 /\
               e = ParseError (RowSum i (length (flat_map cells_of rank)))
     end) /\
  parse_fen m record_with_two_faults = Raise (ParseError (RowSum 1 14)).
Proof.
  split; [|split; [|split; [|split]]].
  - intros parts H.
    destruct (six_parts _ H) as (p & s & c & ep & hm & fm & ->).
    reflexivity.
  - intros fen. apply parse_fen_logged_spec.
  - intros placement e Hlen. rewrite placement_ranks by assumption. split.
    + apply parse_ranks_raise.
    + intros (pre & rank & suf & -> & Hok & He).
      now apply parse_ranks_first_failure.
  - apply parse_rank_raise.
  - reflexivity.
Qed.

Lemma C4_witness :
  first_violation (outcomes 4300 (split (strip record_with_two_faults)))
  = Some (ParseError (RowSum 1 14)).
Proof.
  apply (proj2 (proj1 (proj2 (C4_fail_fast 4300)) record_with_two_faults)).
  reflexivity.
Defined.

(** ** Castling rights *)

(** C5, as the code has it: the castling validator accepts every field
    made of letters of [KQkq] without repetition, in any order, and returns
    the field as it was written; no canonical set is built, and the record
    holds the third field itself. *)
Theorem C5_castling_kept_as_written :
  (forall c, NoDup c -> (forall ch, In ch c -> In ch (lit "KQkq")) ->
             _parse_castling c = Ok c) /\
  (forall c v, _parse_castling c = Ok v ->
     v = c /\
     (c = lit "-" \/
      (NoDup c /\ forall ch, In ch c -> In ch (lit "KQkq")))) /\
  (forall m fen r, parse_fen m fen = Ok r ->
     nth_error (split (strip fen)) 2 = Some (castling r)).
Proof.
  split; [|split].
  - intros c Hnd Hv. unfold _parse_castling.
    destruct (str_eqb c (lit "-")); [reflexivity|].
    rewrite castling_loop_ok; [reflexivity | assumption | assumption |].
    intros ch _ [].
  - intros c v H. split; [now apply castling_returns_input in H|].
    unfold _parse_castling in H.
    destruct (str_eqb c (lit "-")) eqn:E.
    + left. now apply str_eqb_eq.
    + right. destruct (castling_loop c []) as [[]|e] eqn:L; [|discriminate].
      apply castling_loop_inv in L as (Hnd & Hv & _). now split.
  - intros m fen r H.
    apply parse_fen_ok in H as (p & s & c & ep & hm & fm & -> & _ & _ & Hc & _).
    apply castling_returns_input in Hc. now rewrite Hc.
Qed.

(** C5 as the specification words it fails: ["Kq"] and ["qK"] are both
    accepted and denote the same set of rights, yet the two records hold
    different castling values. *)
Lemma C5_counterexample :
  exists r1 r2,
    parse_fen 4300 (lit "8/8/8/8/8/8/8/8 w Kq - 0 1") = Ok r1 /\
    parse_fen 4300 (lit "8/8/8/8/8/8/8/8 w qK - 0 1") = Ok r2 /\
    (forall ch, In ch (lit "Kq") <-> In ch (lit "qK")) /\
    castling r1 = lit "Kq" /\ castling r2 = lit "qK" /\
    castling r1 <> castling r2.
Proof.
  do 2 eexists. split; [reflexivity|]. split; [reflexivity|].
  split; [|split; [reflexivity|split; [reflexivity|discriminate]]].
  intros ch. change (lit "Kq") with [75%N; 113%N].
  change (lit "qK") with [113%N; 75%N]. simpl. tauto.
Qed.

Lemma C5_witness : _parse_castling (lit "qK") = Ok (lit "qK").
Proof.
  apply (proj1 C5_castling_kept_as_written).
  - change (lit "qK") with [113%N; 75%N].
    repeat constructor; simpl; intros H; decompose [or] H;
      try discriminate; assumption.
  - change (lit "qK") with [113%N; 75%N].
    change (lit "KQkq") with [75%N; 81%N; 107%N; 113%N].
    simpl. intros ch H. decompose [or] H; subst; tauto.
Defined.

(** ** Characters outside the alphabet *)

(** C6: when the scan reaches a character that is neither a piece letter
    nor a digit from 1 to 8 (a ['/'] never belongs to a rank), that is,
    when the placement has eight ranks, the ranks before decode and the
    characters before it in its rank are legal, the decoder raises the
    LEXICAL error that names the character and the number of the rank. *)
Theorem C6_foreign_character_is_lexical
        (placement : str) (pre : list str) (before : str) (ch : char)
        (after : str) (suf : list str) :
  split_on 47%N placement = pre ++ (before ++ ch :: after) :: suf ->
  length (split_on 47%N placement) = 8 ->
  ranks_ok 1 pre ->
  forallb legal before = true ->
  ~ In ch ALL_PIECES -> ~ In ch (lit "12345678") ->
  let e := LexicalError (BadChar ch (1 + length pre)) in
  _parse_piece_placement placement = Raise e /\
  kind e = Some LEXICAL /\
  message e = Some (lit "[L" ++ [0xC9%N] ++ lit "XICO] " ++
                    lit "Car" ++ [0xE1%N] ++ lit "cter no permitido '" ++
                    [ch] ++ lit "' en la fila " ++ dec (1 + length pre) ++
                    lit " del <Piece Placement>.").
Proof.
  intros Hsplit Hlen Hpre Hbefore Hpiece Hdigit e.
  split; [|split; reflexivity].
  assert (H8 : ch <> 56%N).
  { intros ->. apply Hdigit. change (lit "12345678") with
      [49%N; 50%N; 51%N; 52%N; 53%N; 54%N; 55%N; 56%N].
    simpl; tauto. }
  assert (Hill : illegal ch = true).
  { unfold illegal, legal. apply mem_not_In in Hpiece. rewrite Hpiece.
    destruct (mem ch DIGITS_1_7) eqn:Hd; [|reflexivity].
    exfalso. apply mem_In in Hd. apply Hdigit.
    change (lit "12345678") with (DIGITS_1_7 ++ [56%N]).
    apply in_or_app. now left. }
  assert (Hne : before ++ ch :: after <> lit "8").
  { change (lit "8") with [56%N]. intros E.
    destruct before as [|b [|b' before]]; cbn in E;
      [congruence | discriminate | discriminate]. }
  rewrite placement_ranks, Hsplit by assumption.
  apply parse_ranks_first_failure; [assumption|].
  rewrite (parse_rank_illegal _ _ ch Hne)
    by now apply find_illegal_after_legal.
  apply N.eqb_neq in H8. now rewrite H8.
Qed.

Lemma C6_witness :
  _parse_piece_placement (lit "8/p3bqp1/Q2p!3p/8/8/8/8/8")
  = Raise (LexicalError (BadChar 33%N 3)).
Proof.
  apply (C6_foreign_character_is_lexical
           (lit "8/p3bqp1/Q2p!3p/8/8/8/8/8") [lit "8"; lit "p3bqp1"]
           (lit "Q2p") 33%N (lit "3p")
           [lit "8"; lit "8"; lit "8"; lit "8"; lit "8"]).
  - reflexivity.
  - reflexivity.
  - apply ranks_okb_sound. reflexivity.
  - reflexivity.
  - apply mem_not_In. reflexivity.
  - apply mem_not_In. reflexivity.
Defined.

(** ** The en-passant target *)

Lemma two_chars_not_dash (f r : char) : str_eqb [f; r] (lit "-") = false.
Proof.
  change (lit "-") with [45%N]. cbn [str_eqb].
  now destruct (f =? 45)%N.
Qed.

(** C7: ["-"] is returned as it is, the record's way of writing that there
    is no target.  Any other field whose length is not 2 fails SYNTACTIC
    (PARSE); a field of two characters fails LEXICAL when the first is not
    a file from [a] to [h], whatever the second; with a file, it fails
    SYNTACTIC when the second is neither ['3'] nor ['6'] and is returned
    otherwise. *)
Theorem C7_en_passant_checks :
  _parse_en_passant (lit "-") = Ok (lit "-") /\
  (forall ep, ep <> lit "-" -> length ep <> 2 ->
     _parse_en_passant ep = Raise (ParseError EpLength)) /\
  (forall f r, ~ In f (lit "abcdefgh") ->
     _parse_en_passant [f; r] = Raise (LexicalError (EpFile f))) /\
  (forall f r, In f (lit "abcdefgh") -> ~ In r (lit "36") ->
     _parse_en_passant [f; r] = Raise (ParseError (EpRank r))) /\
  (forall f r, In f (lit "abcdefgh") -> In r (lit "36") ->
     _parse_en_passant [f; r] = Ok [f; r]) /\
  _parse_en_passant (lit "e3") = Ok (lit "e3") /\
  _parse_en_passant (lit "e6") = Ok (lit "e6") /\
  _parse_en_passant (lit "e4") = Raise (ParseError (EpRank 52%N)) /\
  _parse_en_passant (lit "i3") = Raise (LexicalError (EpFile 105%N)) /\
  _parse_en_passant (lit "e") = Raise (ParseError EpLength).
Proof.
  split; [reflexivity|]. split; [|split; [|split; [|split]]].
  - intros ep Hne Hlen. unfold _parse_en_passant.
    apply str_eqb_neq in Hne. rewrite Hne.
    apply Nat.eqb_neq in Hlen. now rewrite Hlen.
  - intros f r Hf. unfold _parse_en_passant.
    rewrite two_chars_not_dash. cbn [length Nat.eqb negb nth_error].
    apply mem_not_In in Hf. now rewrite Hf.
  - intros f r Hf Hr. unfold _parse_en_passant.
    rewrite two_chars_not_dash. cbn [length Nat.eqb negb nth_error].
    apply mem_In in Hf. apply mem_not_In in Hr. now rewrite Hf, Hr.
  - intros f r Hf Hr. unfold _parse_en_passant.
    rewrite two_chars_not_dash. cbn [length Nat.eqb negb nth_error].
    apply mem_In in Hf. apply mem_In in Hr. now rewrite Hf, Hr.
  - repeat split; reflexivity.
Qed.

Lemma C7_witness :
  _parse_en_passant (lit "e44") = Raise (ParseError EpLength) /\
  _parse_en_passant (lit "i9") = Raise (LexicalError (EpFile 105%N)) /\
  _parse_en_passant (lit "h5") = Raise (ParseError (EpRank 53%N)) /\
  _parse_en_passant (lit "a6") = Ok (lit "a6").
Proof.
  destruct C7_en_passant_checks as (_ & Hlen & Hfile & Hrank & Hok & _).
  split; [|split; [|split]].
  - apply Hlen; [discriminate | simpl; lia].
  - apply (Hfile 105%N 57%N). apply mem_not_In. reflexivity.
  - apply (Hrank 104%N 53%N); [apply mem_In | apply mem_not_In]; reflexivity.
  - apply (Hok 97%N 54%N); apply mem_In; reflexivity.
Defined.

(** ** The unreachable branch of the halfmove clock *)

(** C8: a field that fails the digit-only check fails LEXICAL; for a field
    that passes it and that [int] parses, the validator returns the parsed
    number and that number is not negative; the SYNTACTIC (PARSE) error of
    the branch [val < 0] is raised for no field at all.  A non-empty field
    of the digits ['0'] to ['9'] within the length limit of [int] is such a
    field: the validator returns its value. *)
Theorem C8_halfmove_negative_unreachable (m : nat) (hm : str) :
  (isdigit hm = true -> forall v, int m hm = Some v ->
     _parse_halfmove_clock m hm = Ok v /\ (0 <= v)%Z) /\
  (isdigit hm = false ->
     _parse_halfmove_clock m hm = Raise (LexicalError HalfmoveNotDigits)) /\
  (forall d, _parse_halfmove_clock m hm <> Raise (ParseError d)) /\
  (hm <> [] -> forallb is_ascii_digit hm = true ->
   m = 0 \/ length hm <= m ->
   _parse_halfmove_clock m hm = Ok (value (map (fun c => (c - 48)%N) hm))).
Proof.
  split; [|split; [|split]].
  - intros Hd v Hv. now apply halfmove_digits.
  - apply halfmove_not_digits.
  - apply halfmove_never_parse_error.
  - intros Hne Hd Hm. apply halfmove_digits.
    + now apply ascii_digits_isdigit.
    + now apply int_ascii_digits.
Qed.

Lemma C8_witness :
  (_parse_halfmove_clock 4300 (lit "27") = Ok 27%Z /\ (0 <= 27)%Z) /\
  _parse_halfmove_clock 4300 (lit "-1") = Raise (LexicalError HalfmoveNotDigits).
Proof.
  split.
  - apply (proj1 (C8_halfmove_negative_unreachable 4300 (lit "27")));
      reflexivity.
  - apply (proj1 (proj2 (C8_halfmove_negative_unreachable 4300 (lit "-1")))).
    reflexivity.
Defined.

(** ** The number of fields *)

(** C9: the fields are the maximal runs of characters that are not
    whitespace (trimming first changes nothing: leading whitespace is
    skipped, a token ends where whitespace starts, no token is empty or
    holds whitespace).  When their number is not 6, [parse_fen] raises the
    SYNTACTIC (PARSE) error whose message prints that number, and
    [_validate_fields_count] is the only validator that ran. *)
Theorem C9_wrong_field_count (m : nat) :
  (forall s, split (strip s) = split s) /\
  (forall c s, isspace_char c = true -> split (c :: s) = split s) /\
  (forall t rest, t <> [] -> Forall (fun c => isspace_char c = false) t ->
     match rest with [] => True | w :: _ => isspace_char w = true end ->
     split (t ++ rest) = t :: split rest) /\
  (forall s, Forall (fun t => t <> [] /\
                              Forall (fun c => isspace_char c = false) t)
                    (split s)) /\
  (forall fen,
     let parts := split (strip fen) in
     length parts <> 6 ->
     let e := ParseError (FieldsCount (length parts)) in
     parse_fen_logged m fen = ([(Vfields_count, Raised e)], Raise e) /\
     parse_fen m fen = Raise e /\
     kind e = Some PARSE /\
     message e = Some (lit "[SINTAXIS] " ++
       lit "Se esperaban 6 campos separados por espacios, pero se recibieron "
       ++ dec (length parts) ++ lit ".")).
Proof.
  split; [apply split_strip|]. split; [apply split_ws|].
  split; [apply split_token|]. split; [apply split_tokens|].
  intros fen parts Hlen e.
  assert (H : parse_fen_logged m fen = ([(Vfields_count, Raised e)], Raise e)).
  { unfold parse_fen_logged, _validate_fields_count. fold parts.
    apply Nat.eqb_neq in Hlen. rewrite Hlen. reflexivity. }
  split; [exact H|]. split; [unfold parse_fen; now rewrite H|].
  split; reflexivity.
Qed.

Lemma C9_witness :
  parse_fen_logged 4300 (lit " 8/8/8/8/8/8/8/8  w - -  0 ")
  = ([(Vfields_count, Raised (ParseError (FieldsCount 5)))],
     Raise (ParseError (FieldsCount 5))).
Proof.
  apply (proj2 (proj2 (proj2 (proj2 (C9_wrong_field_count 4300))))
           (lit " 8/8/8/8/8/8/8/8  w - -  0 ")).
  simpl. lia.
Defined.

(** ** Empty ranks *)

(** C10, as the code has it: in a placement with eight ranks, when a rank
    is empty and the ranks before it decode, the decoder raises the
    SYNTACTIC (PARSE) error that says this row has 0 columns; no rank
    before it is empty then, and an empty rank on its own gives that error,
    never a LEXICAL one. *)
Theorem C10_empty_rank (placement : str) (pre suf : list str) :
  split_on 47%N placement = pre ++ [] :: suf ->
  length (split_on 47%N placement) = 8 ->
  ranks_ok 1 pre ->
  _parse_piece_placement placement
  = Raise (ParseError (RowSum (1 + length pre) 0)) /\
  ~ In [] pre /\
  (forall i, parse_rank i [] = Raise (ParseError (RowSum i 0))).
Proof.
  intros Hsplit Hlen Hpre. split; [|split].
  - rewrite placement_ranks, Hsplit by assumption.
    apply parse_ranks_first_failure; [assumption | apply parse_rank_empty].
  - now apply ranks_ok_no_empty in Hpre.
  - apply parse_rank_empty.
Qed.

(** C10 as the specification words it fails: the placement has eight ranks
    and the second is empty, yet the error is the LEXICAL one of the first
    rank. *)
Lemma C10_counterexample :
  let placement := lit "x//8/8/8/8/8/8" in
  length (split_on 47%N placement) = 8 /\
  nth_error (split_on 47%N placement) 1 = Some [] /\
  _parse_piece_placement placement = Raise (LexicalError (BadChar 120%N 1)) /\
  (forall d, _parse_piece_placement placement <> Raise (ParseError d)).
Proof.
  cbv zeta. split; [reflexivity|]. split; [reflexivity|].
  split; [reflexivity|]. intros d. discriminate.
Qed.

Lemma C10_witness :
  _parse_piece_placement (lit "8/pppppppp//8/8/8/8/8")
  = Raise (ParseError (RowSum 3 0)).
Proof.
  apply (C10_empty_rank (lit "8/pppppppp//8/8/8/8/8")
           [lit "8"; lit "pppppppp"]
           [lit "8"; lit "8"; lit "8"; lit "8"; lit "8"]).
  - reflexivity.
  - reflexivity.
  - apply ranks_okb_sound. reflexivity.
Defined.

(** * Further properties of the validators *)

(** ** What the placement decoder accepts *)

Lemma find_illegal_none (rank : str) :
  find illegal rank = None <-> forallb legal rank = true.
Proof.
  induction rank as [|ch rank IH]; cbn [find forallb]; [tauto|].
  unfold illegal at 1. destruct (legal ch); cbn [negb andb]; [exact IH|].
  split; discriminate.
Qed.

Lemma parse_rank_ok_iff (i : nat) (rank : str) (row : Row) :
  parse_rank i rank = Ok row <->
  rank_wf rank = true /\ row = decode_rank rank.
Proof.
  unfold parse_rank, rank_wf, decode_rank.
  destruct (str_eqb rank (lit "8")); cbn [orb].
  - split; [intros H; injection H as <-; now split|].
    intros [_ ->]. reflexivity.
  - rewrite scan_rank_spec. destruct (find illegal rank) as [ch|] eqn:F.
    + split; [discriminate|]. intros [H _].
      apply andb_true_iff in H as [H _].
      apply find_illegal_none in H. congruence.
    + apply find_illegal_none in F. rewrite F. cbn [app andb].
      destruct (length (flat_map cells_of rank) =? 8)%nat; cbn [negb].
      * split; [intros H; injection H as <-; now split|].
        intros [_ ->]. reflexivity.
      * split; [discriminate|]. intros [H _]. discriminate.
Qed.

Lemma parse_ranks_ok_iff (i : nat) (ranks : list str) (b b' : Board) :
  parse_ranks i ranks b = Ok b' <->
  forallb rank_wf ranks = true /\ b' = b ++ map decode_rank ranks.
Proof.
  revert i b; induction ranks as [|rank ranks IH]; intros i b;
    cbn [parse_ranks forallb map].
  - rewrite app_nil_r. split; [intros H; injection H as <-; now split|].
    intros [_ ->]. reflexivity.
  - destruct (parse_rank i rank) as [row|e] eqn:Hr.
    + apply parse_rank_ok_iff in Hr as [Hwf ->]. rewrite Hwf. cbn [andb].
      rewrite IH, <- app_assoc. reflexivity.
    + split; [discriminate|]. intros [H _].
      apply andb_true_iff in H as [H _].
      assert (K : parse_rank i rank = Ok (decode_rank rank))
        by now apply parse_rank_ok_iff.
      congruence.
Qed.

Lemma placement_ok_iff (placement : str) (b : Board) :
  _parse_piece_placement placement = Ok b <->
  length (split_on 47%N placement) = 8 /\
  forallb rank_wf (split_on 47%N placement) = true /\
  b = map decode_rank (split_on 47%N placement).
Proof.
  unfold _parse_piece_placement.
  destruct (length (split_on 47%N placement) =? 8)%nat eqn:E; cbn [negb].
  - apply Nat.eqb_eq in E. rewrite parse_ranks_ok_iff. cbn [app]. tauto.
  - apply Nat.eqb_neq in E. split; [discriminate|]. tauto.
Qed.

(** ** The number of ranks *)

Lemma split_on_length (sep : char) (s : str) :
  length (split_on sep s) = S (occurrences sep s).
Proof.
  unfold occurrences. induction s as [|c s IH]; [reflexivity|].
  cbn [split_on filter]. rewrite (N.eqb_sym sep c).
  destruct (c =? sep)%N; cbn [length].
  - now rewrite IH.
  - destruct (split_on sep s) as [|w ws]; [discriminate|].
    cbn [length] in *. exact IH.
Qed.

(** ** Pieces are neither added nor lost *)

Lemma pieces_of_row_app (a b : Row) :
  pieces_of_row (a ++ b) = pieces_of_row a ++ pieces_of_row b.
Proof.
  induction a as [|[p|] a IH]; cbn [app pieces_of_row]; [reflexivity| |exact IH].
  now rewrite IH.
Qed.

Lemma pieces_of_empty_cells (n : nat) : pieces_of_row (repeat None n) = [].
Proof. induction n as [|n IH]; [reflexivity | exact IH]. Qed.

Lemma pieces_of_cells (rank : str) :
  pieces_of_row (flat_map cells_of rank) = filter is_piece rank.
Proof.
  induction rank as [|ch rank IH]; [reflexivity|].
  cbn [flat_map filter]. rewrite pieces_of_row_app, IH.
  unfold cells_of, is_piece. destruct (mem ch ALL_PIECES).
  - reflexivity.
  - now rewrite pieces_of_empty_cells.
Qed.

Lemma pieces_of_decoded (rank : str) :
  pieces_of_row (decode_rank rank) = filter is_piece rank.
Proof.
  unfold decode_rank. destruct (str_eqb rank (lit "8")) eqn:E.
  - apply str_eqb_eq in E. subst. reflexivity.
  - apply pieces_of_cells.
Qed.

Lemma filter_split_on (f : char -> bool) (sep : char) (s : str) :
  f sep = false ->
  List.concat (map (filter f) (split_on sep s)) = filter f s.
Proof.
  intros Hsep. induction s as [|c s IH]; [reflexivity|].
  cbn [split_on filter]. destruct (c =? sep)%N eqn:E.
  - apply N.eqb_eq in E. subst c. rewrite Hsep. exact IH.
  - destruct (split_on sep s) as [|w ws].
    + cbn in IH |- *. rewrite <- IH. destruct (f c); reflexivity.
    + cbn [map List.concat filter] in IH |- *. rewrite <- IH.
      destruct (f c); reflexivity.
Qed.

Lemma empties_plus_pieces (row : Row) :
  empties_of_row row + length (pieces_of_row row) = length row.
Proof.
  unfold empties_of_row. induction row as [|[p|] row IH];
    cbn [filter pieces_of_row length]; [reflexivity| |].
  - rewrite Nat.add_succ_r. now rewrite IH.
  - cbn [Nat.add]. now rewrite IH.
Qed.

Lemma list_sum_cons (x : nat) (l : list nat) :
  list_sum (x :: l) = x + list_sum l.
Proof. reflexivity. Qed.

Lemma cells_total (b : Board) :
  list_sum (map empties_of_row b) + length (List.concat (map pieces_of_row b))
  = list_sum (map (fun row : Row => length row) b).
Proof.
  induction b as [|row b IH]; [reflexivity|].
  cbn [map List.concat]. rewrite !list_sum_cons, length_app.
  pose proof (empties_plus_pieces row). lia.
Qed.

Lemma rows_of_eight (b : Board) :
  Forall (fun row => length row = 8 /\ Forall cell_ok row) b ->
  list_sum (map (fun row : Row => length row) b) = 8 * length b.
Proof.
  induction 1 as [|row b [Hrow _] _ IH]; [reflexivity|].
  cbn [map length]. rewrite list_sum_cons. lia.
Qed.

(** X1: the placement decoder accepts a field exactly when it has eight
    ranks and each of them is the text ["8"] or is made of piece letters
    and digits from 1 to 7 whose cells count up to 8; the board is then the
    rows these ranks stand for, in order. *)
Theorem X1_placement_accepted (placement : str) (b : Board) :
  _parse_piece_placement placement = Ok b <->
  length (split_on 47%N placement) = 8 /\
  forallb rank_wf (split_on 47%N placement) = true /\
  b = map decode_rank (split_on 47%N placement).
Proof. apply placement_ok_iff. Qed.

Lemma X1_witness :
  _parse_piece_placement (lit "2r3k1/p3bqp1/Q2p3p/3Pp3/P3N3/8/5PPP/5RK1")
  = Ok (map decode_rank
            (split_on 47%N (lit "2r3k1/p3bqp1/Q2p3p/3Pp3/P3N3/8/5PPP/5RK1"))).
Proof.
  apply (proj2 (X1_placement_accepted
                  (lit "2r3k1/p3bqp1/Q2p3p/3Pp3/P3N3/8/5PPP/5RK1") _)).
  repeat split.
Defined.

(** X2: the number of ranks is one more than the number of ['/'] in the
    field.  A field whose number of ['/'] is not 7 is rejected with the
    SYNTACTIC (PARSE) error that prints the number of ranks, whatever else
    it contains; a field that decodes has exactly seven. *)
Theorem X2_seven_slashes (placement : str) :
  (occurrences 47%N placement <> 7 ->
   _parse_piece_placement placement
   = Raise (ParseError (RanksCount (S (occurrences 47%N placement))))) /\
  (forall b, _parse_piece_placement placement = Ok b ->
             occurrences 47%N placement = 7).
Proof.
  split.
  - intros H. unfold _parse_piece_placement. rewrite split_on_length.
    assert (E : (S (occurrences 47%N placement) =? 8)%nat = false)
      by (apply Nat.eqb_neq; lia).
    now rewrite E.
  - intros b H. apply placement_ok_iff in H as [H _].
    rewrite split_on_length in H. lia.
Qed.

Lemma X2_witness :
  _parse_piece_placement (lit "8/8/x!8/9")
  = Raise (ParseError (RanksCount 4)).
Proof.
  apply (proj1 (X2_seven_slashes (lit "8/8/x!8/9"))). vm_compute. lia.
Defined.

(** X3: decoding neither adds nor loses a piece: the pieces of the board,
    read row by row from left to right, are the piece letters of the field
    in the order they are written, and empty cells make up the rest of the
    64 squares. *)
Theorem X3_pieces_preserved (placement : str) (b : Board) :
  _parse_piece_placement placement = Ok b ->
  List.concat (map pieces_of_row b) = filter is_piece placement /\
  list_sum (map empties_of_row b) + length (filter is_piece placement) = 64.
Proof.
  intros H. assert (P : List.concat (map pieces_of_row b)
                        = filter is_piece placement).
  { apply placement_ok_iff in H as (_ & _ & ->).
    rewrite map_map.
    rewrite (map_ext _ (filter is_piece) pieces_of_decoded).
    now apply filter_split_on. }
  split; [exact P|]. rewrite <- P.
  apply placement_ok in H as [Hlen Hrows].
  rewrite cells_total, (rows_of_eight b Hrows), Hlen. reflexivity.
Qed.

Lemma X3_witness :
  exists b,
    _parse_piece_placement (lit "2r3k1/p3bqp1/Q2p3p/3Pp3/P3N3/8/5PPP/5RK1")
    = Ok b /\
    List.concat (map pieces_of_row b) = lit "rkpbqpQppPpPNPPPRK" /\
    list_sum (map empties_of_row b) + 18 = 64.
Proof.
  eexists. split; [reflexivity|].
  apply (X3_pieces_preserved
           (lit "2r3k1/p3bqp1/Q2p3p/3Pp3/P3N3/8/5PPP/5RK1")).
  reflexivity.
Defined.

(** ** The scalar validators *)

Lemma side_ok_iff (s v : str) :
  _parse_side_to_move s = Ok v <-> v = s /\ side_ok s.
Proof.
  unfold _parse_side_to_move, side_ok.
  destruct (str_eqb s (lit "w")) eqn:W; cbn [orb negb].
  - apply str_eqb_eq in W. split; [|intros [-> _]; reflexivity].
    intros H. injection H as <-. split; [reflexivity | now left].
  - destruct (str_eqb s (lit "b")) eqn:B; cbn [negb].
    + apply str_eqb_eq in B. split; [|intros [-> _]; reflexivity].
      intros H. injection H as <-. split; [reflexivity | now right].
    + rewrite str_eqb_neq in W, B. split; [discriminate|].
      intros [_ [H|H]]; contradiction.
Qed.

Lemma castling_ok_iff (c v : str) :
  _parse_castling c = Ok v <-> v = c /\ castling_ok c.
Proof.
  unfold _parse_castling, castling_ok.
  destruct (str_eqb c (lit "-")) eqn:E.
  - apply str_eqb_eq in E.
    split; [intros H; injection H as <-; split; [reflexivity | tauto]
          | intros [-> _]; reflexivity].
  - apply str_eqb_neq in E.
    destruct (castling_loop c []) as [[]|e] eqn:L.
    + apply castling_loop_inv in L as (Hnd & Hv & _).
      split; [intros H; injection H as <-; split; [reflexivity | tauto]
          | intros [-> _]; reflexivity].
    + split; [discriminate|]. intros [_ [H | [Hnd Hv]]]; [contradiction|].
      rewrite castling_loop_ok in L; [discriminate | assumption..|].
      intros ch _ [].
Qed.

Lemma en_passant_ok_iff (ep v : str) :
  _parse_en_passant ep = Ok v <-> v = ep /\ en_passant_ok ep.
Proof.
  unfold _parse_en_passant, en_passant_ok.
  destruct (str_eqb ep (lit "-")) eqn:E.
  - apply str_eqb_eq in E.
    split; [intros H; injection H as <-; split; [reflexivity | tauto]
          | intros [-> _]; reflexivity].
  - apply str_eqb_neq in E.
    destruct ep as [|f [|r [|x ep]]]; cbn [length Nat.eqb negb nth_error];
      try (split; [discriminate|];
           intros [_ [H | (f' & r' & H & _)]]; [contradiction | discriminate]).
    destruct (mem f (lit "abcdefgh")) eqn:F; cbn [negb].
    + destruct (mem r (lit "36")) eqn:R; cbn [negb].
      * apply mem_In in F. apply mem_In in R. split.
        -- intros H. injection H as <-. split; [reflexivity|].
           right. now exists f, r.
        -- intros [-> _]. reflexivity.
      * apply mem_not_In in R. split; [discriminate|].
        intros [_ [H | (f' & r' & H & _ & Hr)]]; [contradiction|].
        injection H as -> ->. contradiction.
    + apply mem_not_In in F. split; [discriminate|].
      intros [_ [H | (f' & r' & H & Hf & _)]]; [contradiction|].
      injection H as -> ->. contradiction.
Qed.

Lemma halfmove_ok_iff (m : nat) (hm : str) (v : Z) :
  _parse_halfmove_clock m hm = Ok v <-> isdigit hm = true /\ int m hm = Some v.
Proof.
  split.
  - unfold _parse_halfmove_clock. destruct (isdigit hm); cbn [negb];
      [|discriminate].
    destruct (int m hm) as [w|]; [|discriminate].
    destruct (w <? 0)%Z; [discriminate|].
    intros H. injection H as <-. now split.
  - intros [Hd Hi]. now apply halfmove_digits.
Qed.

Lemma fullmove_ok_iff (m : nat) (fn : str) (v : Z) :
  _parse_fullmove_number m fn = Ok v <->
  isdigit fn = true /\ int m fn = Some v /\ (1 <= v)%Z.
Proof.
  unfold _parse_fullmove_number. destruct (isdigit fn); cbn [negb].
  - destruct (int m fn) as [w|].
    + destruct (w <? 1)%Z eqn:E.
      * apply Z.ltb_lt in E. split; [discriminate|].
        intros (_ & H & Hv). injection H as <-. lia.
      * apply Z.ltb_ge in E. split.
        -- intros H. injection H as <-. repeat split; assumption.
        -- intros (_ & H & _). now injection H as <-.
    + split; [discriminate|]. intros (_ & H & _). discriminate.
  - split; [discriminate|]. intros (H & _). discriminate.
Qed.

Lemma parse_fen_ok_iff (m : nat) (fen : str) (r : FenRecord) :
  parse_fen m fen = Ok r <->
  exists p s c ep hm fm,
    split (strip fen) = [p; s; c; ep; hm; fm] /\
    _parse_piece_placement p = Ok (board r) /\
    _parse_side_to_move s = Ok (side_to_move r) /\
    _parse_castling c = Ok (castling r) /\
    _parse_en_passant ep = Ok (en_passant r) /\
    _parse_halfmove_clock m hm = Ok (halfmove_clock r) /\
    _parse_fullmove_number m fm = Ok (fullmove_number r).
Proof.
  split; [apply parse_fen_ok|].
  intros (p & s & c & ep & hm & fm & Hs & H1 & H2 & H3 & H4 & H5 & H6).
  unfold parse_fen, parse_fen_logged.
  rewrite Hs. unfold _validate_fields_count, bind, call. cbn [length Nat.eqb negb].
  rewrite H1, H2, H3, H4, H5, H6. cbn. now destruct r.
Qed.

Lemma castling_loop_app (pre rest : str) (seen : list char) :
  NoDup pre -> (forall c, In c pre -> In c (lit "KQkq")) ->
  (forall c, In c pre -> ~ In c seen) ->
  castling_loop (pre ++ rest) seen = castling_loop rest (rev pre ++ seen).
Proof.
  revert seen; induction pre as [|c pre IH]; intros seen Hnd Hv Hs;
    [reflexivity|].
  inversion Hnd as [|? ? Hnotin Hnd']; subst.
  cbn [app castling_loop].
  assert (V : mem c (lit "KQkq") = true) by (apply mem_In, Hv; now left).
  assert (S : mem c seen = false) by (apply mem_not_In, Hs; now left).
  rewrite V, S. cbn [negb rev]. rewrite <- app_assoc. cbn [app].
  apply IH.
  - assumption.
  - intros x Hx. apply Hv. now right.
  - intros x Hx [<- | Hin]; [contradiction|].
    apply (Hs x); [now right | assumption].
Qed.

Lemma value_zero_from (ds : list N) (v : Z) :
  (0 <= v)%Z ->
  fold_left (fun v d => (10 * v + Z.of_N d)%Z) ds v = 0%Z <->
  v = 0%Z /\ forallb (N.eqb 0) ds = true.
Proof.
  revert v; induction ds as [|d ds IH]; intros v Hv;
    cbn [fold_left forallb].
  - tauto.
  - pose proof (N2Z.is_nonneg d) as Hd. rewrite IH by lia.
    rewrite andb_true_iff, N.eqb_eq. split.
    + intros [H1 H2]. repeat split; [lia | lia | assumption].
    + intros (H1 & H2 & H3). split; [lia | assumption].
Qed.

Lemma value_zero (ds : list N) :
  value ds = 0%Z <-> forallb (N.eqb 0) ds = true.
Proof.
  unfold value. rewrite value_zero_from by lia. tauto.
Qed.

Lemma zero_digits (s : str) :
  forallb (N.eqb 0) (map (fun c => (c - 48)%N) s)
  = forallb (fun c => (c <=? 48)%N) s.
Proof.
  induction s as [|c s IH]; [reflexivity|]. cbn [map forallb]. rewrite IH.
  f_equal. destruct (c <=? 48)%N eqn:E.
  - apply N.leb_le in E. apply N.eqb_eq. lia.
  - apply N.leb_gt in E. apply N.eqb_neq. lia.
Qed.

Lemma parse_fen_depends_on_fields (m : nat) (a b : str) :
  split a = split b -> parse_fen_logged m a = parse_fen_logged m b.
Proof.
  intros H. unfold parse_fen_logged. rewrite !split_strip, H. reflexivity.
Qed.

Lemma split_join (toks : list str) :
  Forall (fun t => t <> [] /\ Forall (fun c => isspace_char c = false) t) toks ->
  split (join_space toks) = toks.
Proof.
  induction 1 as [|t toks [Hne Ht] Htoks IH]; [reflexivity|].
  destruct toks as [|t' toks].
  - cbn [join_space]. rewrite <- (app_nil_r t) at 1.
    now rewrite split_token.
  - change (join_space (t :: t' :: toks))
      with (t ++ 32%N :: join_space (t' :: toks)).
    rewrite split_token by (try assumption; reflexivity).
    rewrite split_ws by reflexivity. now rewrite IH.
Qed.

Lemma split_leading (w s : str) :
  forallb isspace_char w = true -> split (w ++ s) = split s.
Proof.
  induction w as [|c w IH]; cbn [forallb app]; [reflexivity|].
  intros H. apply andb_true_iff in H as [Hc Hw].
  rewrite split_ws by assumption. now apply IH.
Qed.

Lemma split_trailing (s w : str) :
  forallb isspace_char w = true -> split (s ++ w) = split s.
Proof.
  induction w as [|c w IH] using rev_ind; intros H.
  - now rewrite app_nil_r.
  - rewrite forallb_app in H. apply andb_true_iff in H as [Hw Hc].
    cbn [forallb] in Hc. apply andb_true_iff in Hc as [Hc _].
    rewrite app_assoc, split_app_ws by assumption. now apply IH.
Qed.

(** X4: for a castling field other than ["-"] the first faulty character
    decides the error: after letters of [KQkq] without repetition, a
    character outside [KQkq] gives the LEXICAL error naming it, and a
    letter already met gives the SYNTACTIC (PARSE) error naming it; what
    follows is not looked at.  A ['-'] next to anything else is such a
    LEXICAL fault. *)
Theorem X4_castling_first_fault (pre : str) (ch : char) (rest : str) :
  pre ++ ch :: rest <> lit "-" ->
  NoDup pre -> (forall c, In c pre -> In c (lit "KQkq")) ->
  (~ In ch (lit "KQkq") ->
   _parse_castling (pre ++ ch :: rest)
   = Raise (LexicalError (BadCastlingChar ch))) /\
  (In ch (lit "KQkq") -> In ch pre ->
   _parse_castling (pre ++ ch :: rest)
   = Raise (ParseError (DupCastling ch))).
Proof.
  intros Hne Hnd Hv. unfold _parse_castling.
  apply str_eqb_neq in Hne. rewrite Hne.
  rewrite castling_loop_app by (try assumption; intros c _ []).
  cbn [castling_loop]. split.
  - intros H. apply mem_not_In in H. now rewrite H.
  - intros H Hin. apply mem_In in H. rewrite H. cbn [negb].
    assert (S : mem ch (rev pre ++ []) = true).
    { apply mem_In. rewrite app_nil_r. now apply in_rev in Hin. }
    now rewrite S.
Qed.

Lemma X4_witness :
  _parse_castling (lit "Kq-Kx") = Raise (LexicalError (BadCastlingChar 45%N)) /\
  _parse_castling (lit "KqKx") = Raise (ParseError (DupCastling 75%N)).
Proof.
  split.
  - apply (proj1 (X4_castling_first_fault (lit "Kq") 45%N (lit "Kx")
                    ltac:(discriminate)
                    ltac:(repeat constructor; cbv; intuition discriminate)
                    ltac:(cbv; intuition))).
    cbv. intuition discriminate.
  - apply (proj2 (X4_castling_first_fault (lit "Kq") 75%N (lit "x")
                    ltac:(discriminate)
                    ltac:(repeat constructor; cbv; intuition discriminate)
                    ltac:(cbv; intuition))).
    + cbv. intuition.
    + cbv. intuition.
Defined.

(** X5: the fullmove validator returns only numbers from 1 on, and only
    for a field that passes [isdigit] and that [int] parses to that number.
    A non-empty field of the digits ['0'] to ['9'] within the length limit
    of [int] is rejected as SYNTACTIC (PARSE) exactly when all its digits
    are ['0'], and otherwise returned with its value. *)
Theorem X5_fullmove_at_least_one (m : nat) (fn : str) :
  (forall v, _parse_fullmove_number m fn = Ok v ->
     (1 <= v)%Z /\ isdigit fn = true /\ int m fn = Some v) /\
  (fn <> [] -> forallb is_ascii_digit fn = true ->
   m = 0 \/ length fn <= m ->
   _parse_fullmove_number m fn =
   if forallb (N.eqb 48) fn then Raise (ParseError FullmoveTooSmall)
   else Ok (value (map (fun c => (c - 48)%N) fn))).
Proof.
  split.
  - intros v H. apply fullmove_ok_iff in H. tauto.
  - intros Hne Hd Hm. unfold _parse_fullmove_number.
    rewrite ascii_digits_isdigit, int_ascii_digits by assumption.
    cbn [negb].
    assert (E : forallb (N.eqb 48) fn
                = forallb (N.eqb 0) (map (fun c => (c - 48)%N) fn)).
    { clear Hne Hm. induction fn as [|c fn IH]; [reflexivity|].
      cbn [forallb map] in *. apply andb_true_iff in Hd as [Hc Hd].
      rewrite IH by assumption. f_equal.
      unfold is_ascii_digit in Hc. apply andb_true_iff in Hc as [H1 _].
      apply N.leb_le in H1.
      destruct (48 =? c)%N eqn:E.
      - apply N.eqb_eq in E. symmetry. apply N.eqb_eq. lia.
      - apply N.eqb_neq in E. symmetry. apply N.eqb_neq. lia. }
    rewrite E.
    pose proof (value_nonneg (map (fun c => (c - 48)%N) fn)) as Hnn.
    pose proof (value_zero (map (fun c => (c - 48)%N) fn)) as Hz.
    destruct (forallb (N.eqb 0) (map (fun c => (c - 48)%N) fn)).
    + assert (Z0 : value (map (fun c => (c - 48)%N) fn) = 0%Z) by now apply Hz.
      rewrite Z0. reflexivity.
    + destruct (value (map (fun c => (c - 48)%N) fn) <? 1)%Z eqn:L;
        [|reflexivity].
      apply Z.ltb_lt in L.
      assert (Z0 : value (map (fun c => (c - 48)%N) fn) = 0%Z) by lia.
      apply Hz in Z0. discriminate.
Qed.

Lemma X5_witness :
  (exists v, _parse_fullmove_number 4300 (lit "27") = Ok v /\ (1 <= v)%Z) /\
  _parse_fullmove_number 4300 (lit "000") = Raise (ParseError FullmoveTooSmall) /\
  _parse_fullmove_number 4300 (lit "010") = Ok 10%Z.
Proof.
  split; [|split].
  - exists 27%Z. split; [reflexivity|].
    apply (proj1 (X5_fullmove_at_least_one 4300 (lit "27")) 27%Z).
    reflexivity.
  - apply (proj2 (X5_fullmove_at_least_one 4300 (lit "000")));
      [discriminate | reflexivity | right; cbv; lia].
  - apply (proj2 (X5_fullmove_at_least_one 4300 (lit "010")));
      [discriminate | reflexivity | right; cbv; lia].
Defined.

Lemma value_leading_zero (ds : list N) : value (0%N :: ds) = value ds.
Proof. reflexivity. Qed.

Lemma int_leading_zero (m : nat) (s : str) :
  s <> [] -> forallb is_ascii_digit s = true ->
  m = 0 \/ S (length s) <= m ->
  int m (48%N :: s) = int m s.
Proof.
  intros Hne Hd Hm.
  rewrite (int_ascii_digits m (48%N :: s));
    [|discriminate | cbn [forallb]; now rewrite Hd | cbn [length]; lia].
  rewrite (int_ascii_digits m s) by (try assumption; lia).
  reflexivity.
Qed.

(** X6: leading zeros do not count: for a non-empty field of the digits
    ['0'] to ['9'], writing one more ['0'] in front (within the length
    limit of [int]) changes neither what the halfmove validator nor what
    the fullmove validator answers. *)
Theorem X6_leading_zero (m : nat) (s : str) :
  s <> [] -> forallb is_ascii_digit s = true ->
  m = 0 \/ S (length s) <= m ->
  _parse_halfmove_clock m (48%N :: s) = _parse_halfmove_clock m s /\
  _parse_fullmove_number m (48%N :: s) = _parse_fullmove_number m s.
Proof.
  intros Hne Hd Hm.
  assert (D1 : isdigit (48%N :: s) = true)
    by (apply ascii_digits_isdigit; [discriminate | cbn [forallb]; now rewrite Hd]).
  assert (D2 : isdigit s = true) by now apply ascii_digits_isdigit.
  unfold _parse_halfmove_clock, _parse_fullmove_number.
  rewrite D1, D2, int_leading_zero by assumption. now split.
Qed.

Lemma X6_witness :
  _parse_halfmove_clock 4300 (lit "007") = _parse_halfmove_clock 4300 (lit "07") /\
  _parse_fullmove_number 4300 (lit "007") = _parse_fullmove_number 4300 (lit "07").
Proof.
  apply (X6_leading_zero 4300 (lit "07"));
    [discriminate | reflexivity | right; cbv; lia].
Defined.

(** X7: [parse_fen] raises a LEXICAL error, a SYNTACTIC (PARSE) error, or
    the [ValueError] of [int] on a halfmove or fullmove field that passed
    [isdigit]; it raises nothing else: no [IndexError], and no [ValueError]
    from unpacking the fields. *)
Theorem X7_exceptions_of_parse_fen (m : nat) (fen : str) (e : exn) :
  parse_fen m fen = Raise e ->
  kind e = Some LEXICAL \/ kind e = Some PARSE \/
  (e = ValueError /\
   exists p s c ep hm fm,
     split (strip fen) = [p; s; c; ep; hm; fm] /\
     ((isdigit hm = true /\ int m hm = None) \/
      (isdigit fm = true /\ int m fm = None))).
Proof.
  intros H. destruct (kind e) as [[|]|] eqn:K; [now left | now auto |].
  right; right. now apply parse_fen_unclassified.
Qed.

Lemma X7_witness :
  kind (ParseError (RowSum 1 14)) = Some LEXICAL \/
  kind (ParseError (RowSum 1 14)) = Some PARSE \/
  (ParseError (RowSum 1 14) = ValueError /\
   exists p s c ep hm fm,
     split (strip record_with_two_faults) = [p; s; c; ep; hm; fm] /\
     ((isdigit hm = true /\ int 4300 hm = None) \/
      (isdigit fm = true /\ int 4300 fm = None))).
Proof.
  apply (X7_exceptions_of_parse_fen 4300 record_with_two_faults).
  reflexivity.
Defined.

(** X8: every record [parse_fen] returns is as the comments of [FenRecord]
    say: the side is ['w'] or ['b']; the castling field is ['-'] or one to
    four letters of [KQkq], none repeated; the en-passant field is ['-'] or
    a file from [a] to [h] followed by ['3'] or ['6']; the halfmove clock
    is at least 0 and the fullmove number at least 1. *)
Theorem X8_record_invariants (m : nat) (fen : str) (r : FenRecord) :
  parse_fen m fen = Ok r ->
  side_ok (side_to_move r) /\
  castling_ok (castling r) /\
  1 <= length (castling r) <= 4 /\
  en_passant_ok (en_passant r) /\
  (0 <= halfmove_clock r)%Z /\
  (1 <= fullmove_number r)%Z.
Proof.
  intros H.
  apply parse_fen_ok in H
    as (p & s & c & ep & hm & fm & Hs & _ & H2 & H3 & H4 & H5 & H6).
  apply side_ok_iff in H2 as [-> H2].
  apply castling_ok_iff in H3 as [-> H3].
  apply en_passant_ok_iff in H4 as [-> H4].
  apply halfmove_ok_iff in H5 as [Hd Hi].
  apply fullmove_ok_iff in H6 as (_ & _ & H6).
  repeat split; try assumption.
  - pose proof (split_tokens (strip fen)) as T. rewrite Hs in T.
    inversion T as [|? ? _ T1]; subst. inversion T1 as [|? ? _ T2]; subst.
    inversion T2 as [|? ? [Hne _] _]; subst.
    destruct c; [congruence | cbn [length]; lia].
  - destruct H3 as [-> | [Hnd Hv]]; [cbv; lia|].
    apply (NoDup_incl_length Hnd Hv).
  - now apply (int_isdigit_nonneg m hm).
Qed.

Lemma X8_witness :
  exists r, parse_fen 4300 initial_position = Ok r /\
    side_ok (side_to_move r) /\ castling_ok (castling r) /\
    1 <= length (castling r) <= 4 /\ en_passant_ok (en_passant r) /\
    (0 <= halfmove_clock r)%Z /\ (1 <= fullmove_number r)%Z.
Proof.
  eexists. split; [reflexivity|].
  apply (X8_record_invariants 4300 initial_position). reflexivity.
Defined.

(** X9: the records [parse_fen] accepts, and what it returns for them:
    the input has six fields; the first has eight ranks, each the text
    ["8"] or piece letters and digits from 1 to 7 counting up to 8; the
    side, castling and en-passant fields are as in X8; the last two pass
    [isdigit] and [int] parses them, the sixth to a number from 1 on.  The
    record then holds the decoded rows, the three fields as written and
    the two numbers. *)
Theorem X9_accepted_records (m : nat) (fen : str) (r : FenRecord) :
  parse_fen m fen = Ok r <->
  exists p s c ep hm fm h f,
    split fen = [p; s; c; ep; hm; fm] /\
    length (split_on 47%N p) = 8 /\
    forallb rank_wf (split_on 47%N p) = true /\
    side_ok s /\ castling_ok c /\ en_passant_ok ep /\
    isdigit hm = true /\ int m hm = Some h /\
    isdigit fm = true /\ int m fm = Some f /\ (1 <= f)%Z /\
    r = mkFenRecord (map decode_rank (split_on 47%N p)) s c ep h f.
Proof.
  rewrite parse_fen_ok_iff, split_strip. split.
  - intros (p & s & c & ep & hm & fm & Hs & H1 & H2 & H3 & H4 & H5 & H6).
    apply placement_ok_iff in H1 as (L & W & B).
    apply side_ok_iff in H2 as [S2 H2].
    apply castling_ok_iff in H3 as [S3 H3].
    apply en_passant_ok_iff in H4 as [S4 H4].
    apply halfmove_ok_iff in H5 as [D5 I5].
    apply fullmove_ok_iff in H6 as (D6 & I6 & V6).
    exists p, s, c, ep, hm, fm, (halfmove_clock r), (fullmove_number r).
    repeat split; try assumption.
    destruct r; cbn in *. congruence.
  - intros (p & s & c & ep & hm & fm & h & f & Hs & L & W & H2 & H3 & H4
            & D5 & I5 & D6 & I6 & V6 & ->).
    exists p, s, c, ep, hm, fm. cbn.
    split; [assumption|]. split; [now apply placement_ok_iff|].
    split; [now apply side_ok_iff|]. split; [now apply castling_ok_iff|].
    split; [now apply en_passant_ok_iff|].
    split; [now apply halfmove_ok_iff | now apply fullmove_ok_iff].
Qed.

Lemma X9_witness :
  parse_fen 4300 (lit "2r3k1/p3bqp1/Q2p3p/3Pp3/P3N3/8/5PPP/5RK1 b - - 1 27")
  = Ok (mkFenRecord
          (map decode_rank
               (split_on 47%N (lit "2r3k1/p3bqp1/Q2p3p/3Pp3/P3N3/8/5PPP/5RK1")))
          (lit "b") (lit "-") (lit "-") 1 27).
Proof.
  apply (proj2 (X9_accepted_records 4300 _ _)).
  exists (lit "2r3k1/p3bqp1/Q2p3p/3Pp3/P3N3/8/5PPP/5RK1"),
    (lit "b"), (lit "-"), (lit "-"), (lit "1"), (lit "27"), 1%Z, 27%Z.
  repeat split; try reflexivity.
  - right. reflexivity.
  - left. reflexivity.
  - left. reflexivity.
  - cbv. discriminate.
Defined.

(** X10: only the fields count.  Two inputs with the same fields give the
    same run of [parse_fen]; so an input may be replaced by its fields
    joined with single spaces, and whitespace of any kind added in front
    or at the end changes nothing. *)
Theorem X10_whitespace_is_immaterial (m : nat) :
  (forall a b, split a = split b ->
     parse_fen_logged m a = parse_fen_logged m b) /\
  (forall fen, parse_fen m (join_space (split fen)) = parse_fen m fen) /\
  (forall w1 fen w2,
     forallb isspace_char w1 = true -> forallb isspace_char w2 = true ->
     parse_fen m (w1 ++ fen ++ w2) = parse_fen m fen).
Proof.
  split; [apply parse_fen_depends_on_fields|]. split.
  - intros fen. unfold parse_fen. f_equal.
    apply parse_fen_depends_on_fields, split_join, split_tokens.
  - intros w1 fen w2 H1 H2. unfold parse_fen. f_equal.
    apply parse_fen_depends_on_fields.
    now rewrite split_leading, split_trailing.
Qed.

Lemma X10_witness :
  parse_fen 4300 ([9%N; 0xA0%N] ++ initial_position ++ [0x3000%N; 10%N])
  = parse_fen 4300 initial_position.
Proof.
  apply (proj2 (proj2 (X10_whitespace_is_immaterial 4300))); reflexivity.
Defined.

(** * The window *)

Example window_samples :
  str_int 0 = lit "0" /\ str_int 27 = lit "27" /\ str_int (-3) = lit "-3" /\
  map fst UNICODE_WHITE = UNICODE_WHITE_keys /\
  map fst UNICODE_BLACK = UNICODE_BLACK_keys /\
  piece_glyph 75%N = ([0x2654%N], lit "#000000") /\
  piece_glyph 107%N = ([0x265A%N], lit "#111111") /\
  piece_glyph 67%N = (lit "?", lit "#ff0000") /\
  length squares = 64 /\ nth_error squares 9 = Some (1, 1).
Proof. repeat split; reflexivity. Qed.

(** ** Drawing a board *)

Lemma in_squares (r c : nat) : In (r, c) squares <-> r < 8 /\ c < 8.
Proof.
  unfold squares. rewrite in_prod_iff, !in_seq. lia.
Qed.

Lemma set_label_same (g : Grid) (r c : nat) (l : Label) :
  set_label g r c l r c = Some l.
Proof. unfold set_label. now rewrite !Nat.eqb_refl. Qed.

Lemma set_label_other (g : Grid) (r c r' c' : nat) (l : Label) :
  (r', c') <> (r, c) -> set_label g r c l r' c' = g r' c'.
Proof.
  intros H. unfold set_label.
  destruct (r' =? r)%nat eqn:Er; [|reflexivity].
  destruct (c' =? c)%nat eqn:Ec; [|reflexivity].
  apply Nat.eqb_eq in Er. apply Nat.eqb_eq in Ec. congruence.
Qed.

Lemma board_ok_cell (b : Board) (r c : nat) :
  board_ok b -> r < 8 -> c < 8 ->
  exists cell, cell_at b r c = Some cell /\ cell_ok cell.
Proof.
  intros [Hlen Hrows] Hr Hc. unfold cell_at.
  destruct (nth_error b r) as [row|] eqn:Er.
  - rewrite Forall_forall in Hrows.
    destruct (Hrows row (nth_error_In _ _ Er)) as [Hrow Hcells].
    destruct (nth_error row c) as [cell|] eqn:Ec.
    + exists cell. split; [reflexivity|].
      rewrite Forall_forall in Hcells. apply Hcells.
      exact (nth_error_In _ _ Ec).
    + apply nth_error_None in Ec. lia.
  - apply nth_error_None in Er. lia.
Qed.

(** A square that holds the label of an empty square or already its final
    label holds its final label after its turn. *)
Lemma draw_square_spec (b : Board) (r c : nat) (g : Grid) (cell : option char) :
  cell_at b r c = Some cell ->
  g r c = Some (empty_label r c) \/ g r c = Some (label_of r c cell) ->
  exists g', draw_square b r c g = (g', Ok tt) /\
             g' r c = Some (label_of r c cell) /\
             forall r' c', (r', c') <> (r, c) -> g' r' c' = g r' c'.
Proof.
  unfold cell_at, draw_square. intros Hcell Hg.
  destruct (nth_error b r) as [row|]; [|discriminate]. rewrite Hcell.
  destruct cell as [ch|].
  - assert (E : exists l, g r c = Some l /\ lbl_bg l = square_bg r c).
    { destruct Hg as [Hg|Hg]; rewrite Hg; eexists; split; reflexivity. }
    destruct E as (l & El & Ebg). rewrite El, Ebg. eexists.
    split; [reflexivity|]. split; [apply set_label_same|].
    intros r' c' H. now apply set_label_other.
  - exists g. split; [reflexivity|]. split; [|reflexivity].
    destruct Hg as [Hg|Hg]; exact Hg.
Qed.

Lemma draw_squares_spec (b : Board) (todo : list (nat * nat)) (g : Grid) :
  board_ok b ->
  (forall r c, In (r, c) todo -> r < 8 /\ c < 8) ->
  (forall r c cell, r < 8 -> c < 8 -> cell_at b r c = Some cell ->
     g r c = Some (empty_label r c) \/ g r c = Some (label_of r c cell)) ->
  exists g', draw_squares b todo g = (g', Ok tt) /\
    (forall r c cell, In (r, c) todo -> cell_at b r c = Some cell ->
       g' r c = Some (label_of r c cell)) /\
    (forall r c, ~ In (r, c) todo -> g' r c = g r c).
Proof.
  intros Hb. revert g. induction todo as [|[r0 c0] todo IH]; intros g Hin Hg.
  - exists g. split; [reflexivity|]. split; [intros r c cell []|reflexivity].
  - destruct (Hin r0 c0 (or_introl eq_refl)) as [Hr0 Hc0].
    destruct (board_ok_cell b r0 c0 Hb Hr0 Hc0) as (cell0 & Hcell0 & _).
    destruct (draw_square_spec b r0 c0 g cell0 Hcell0 (Hg _ _ _ Hr0 Hc0 Hcell0))
      as (g1 & Hd & Hsame & Hother).
    destruct (IH g1) as (g' & Hds & Hdone & Hrest).
    + intros r c H. apply Hin. now right.
    + intros r c cell Hr Hc Hcell.
      destruct (Nat.eq_dec r r0) as [->|Hne];
        [destruct (Nat.eq_dec c c0) as [->|Hne]|].
      * right. rewrite Hsame. congruence.
      * rewrite Hother by congruence. now apply Hg.
      * rewrite Hother by congruence. now apply Hg.
    + exists g'. cbn [draw_squares]. rewrite Hd. split; [exact Hds|]. split.
      * intros r c cell H Hcell.
        assert (D : {In (r, c) todo} + {~ In (r, c) todo})
          by (apply in_dec; decide equality; apply Nat.eq_dec).
        destruct D as [Hi|Hn]; [now apply Hdone|].
        destruct H as [H|H]; [|contradiction].
        injection H as <- <-. rewrite Hrest by assumption.
        rewrite Hsame. congruence.
      * intros r c H. rewrite Hrest by (intros K; apply H; now right).
        apply Hother. intros K. apply H. left. congruence.
Qed.

Lemma draw_board_spec (b : Board) :
  board_ok b ->
  exists g, draw_board b = (g, Ok tt) /\
    (forall r c cell, r < 8 -> c < 8 -> cell_at b r c = Some cell ->
       g r c = Some (label_of r c cell)) /\
    (forall r c, ~ (r < 8 /\ c < 8) -> g r c = None).
Proof.
  intros Hb. unfold draw_board.
  destruct (draw_squares_spec b squares _build_empty_board Hb)
    as (g & Hd & Hdone & Hrest).
  - intros r c H. now apply in_squares.
  - intros r c cell Hr Hc _. left. unfold _build_empty_board.
    apply Nat.ltb_lt in Hr. apply Nat.ltb_lt in Hc. now rewrite Hr, Hc.
  - exists g. split; [exact Hd|]. split.
    + intros r c cell Hr Hc Hcell. apply Hdone; [|assumption].
      now apply in_squares.
    + intros r c H. rewrite Hrest by now rewrite in_squares.
      unfold _build_empty_board.
      destruct (r <? 8)%nat eqn:Er; [|reflexivity].
      destruct (c <? 8)%nat eqn:Ec; [|reflexivity].
      apply Nat.ltb_lt in Er. apply Nat.ltb_lt in Ec. tauto.
Qed.

Lemma parse_fen_board_ok (m : nat) (fen : str) (rec : FenRecord) :
  parse_fen m fen = Ok rec -> board_ok (board rec).
Proof.
  intros H. apply parse_fen_ok in H as (p & _ & _ & _ & _ & _ & _ & Hp & _).
  now apply placement_ok in Hp.
Qed.

(** The glyph of each of the twelve pieces: from one of the two tables,
    never the question mark in red. *)
Lemma piece_glyph_ok (p : char) :
  In p ALL_PIECES ->
  (dict_get UNICODE_WHITE p = Some (fst (piece_glyph p)) \/
   dict_get UNICODE_BLACK p = Some (fst (piece_glyph p))) /\
  snd (piece_glyph p) <> lit "#ff0000" /\
  fst (piece_glyph p) <> lit "?" /\ fst (piece_glyph p) <> [].
Proof.
  intros H. cbv in H. decompose [or] H; try contradiction; subst p;
    (split; [first [left; reflexivity | right; reflexivity]|]);
    repeat split; discriminate.
Qed.

Lemma piece_glyph_injective (p q : char) :
  In p ALL_PIECES -> In q ALL_PIECES ->
  fst (piece_glyph p) = fst (piece_glyph q) -> p = q.
Proof.
  intros Hp Hq. cbv in Hp. cbv in Hq.
  decompose [or] Hp; try contradiction; subst p;
    decompose [or] Hq; try contradiction; subst q;
    intros E; first [reflexivity | discriminate E].
Qed.

(** X11: for every record [parse_fen] returns, [draw_board] ends without an
    exception and leaves 64 labels: square [(r, c)] has the light
    background when [r + c] is even and the dark one otherwise; it shows
    no text for an empty cell and, for a piece, the glyph its letter has in
    [UNICODE_WHITE] or [UNICODE_BLACK]; the red question mark of the
    fallback branch is never shown. *)
Theorem X11_draw_board_of_record (m : nat) (fen : str) (rec : FenRecord) :
  parse_fen m fen = Ok rec ->
  snd (draw_board (board rec)) = Ok tt /\
  (forall r c, r < 8 -> c < 8 ->
     exists cell l,
       cell_at (board rec) r c = Some cell /\
       fst (draw_board (board rec)) r c = Some l /\
       lbl_bg l = square_bg r c /\
       match cell with
       | None => lbl_text l = []
       | Some p => dict_get UNICODE_WHITE p = Some (lbl_text l) \/
                   dict_get UNICODE_BLACK p = Some (lbl_text l)
       end /\
       lbl_fg l <> lit "#ff0000" /\ lbl_text l <> lit "?") /\
  (forall r c, ~ (r < 8 /\ c < 8) ->
     fst (draw_board (board rec)) r c = None).
Proof.
  intros H. apply parse_fen_board_ok in H.
  destruct (draw_board_spec (board rec) H) as (g & Hd & Hin & Hout).
  rewrite Hd. cbn [fst snd]. split; [reflexivity|]. split; [|exact Hout].
  intros r c Hr Hc.
  destruct (board_ok_cell (board rec) r c H Hr Hc) as (cell & Hcell & Hok).
  exists cell, (label_of r c cell).
  split; [exact Hcell|]. split; [now apply Hin|].
  destruct cell as [p|]; cbn [label_of lbl_bg lbl_text lbl_fg].
  - destruct (piece_glyph_ok p Hok) as (Ht & Hfg & Hq & _).
    repeat split; assumption.
  - repeat split; discriminate.
Qed.

Lemma X11_witness :
  snd (draw_board [row_of (lit "rnbqkbnr"); row_of (lit "pppppppp"); empty_row;
                   empty_row; empty_row; empty_row; row_of (lit "PPPPPPPP");
                   row_of (lit "RNBQKBNR")]) = Ok tt.
Proof.
  apply (X11_draw_board_of_record 4300 initial_position
           (mkFenRecord _ (lit "w") (lit "KQkq") (lit "-") 0 1)).
  reflexivity.
Defined.

Lemma label_text_injective (r c : nat) (x y : option char) :
  cell_ok x -> cell_ok y ->
  lbl_text (label_of r c x) = lbl_text (label_of r c y) -> x = y.
Proof.
  intros Hx Hy. destruct x as [p|]; destruct y as [q|];
    cbn [label_of lbl_text empty_label]; intros E.
  - f_equal. now apply piece_glyph_injective.
  - destruct (piece_glyph_ok p Hx) as (_ & _ & _ & Hne). congruence.
  - destruct (piece_glyph_ok q Hy) as (_ & _ & _ & Hne). congruence.
  - reflexivity.
Qed.

Lemma board_ext (b1 b2 : Board) :
  board_ok b1 -> board_ok b2 ->
  (forall r c, r < 8 -> c < 8 -> cell_at b1 r c = cell_at b2 r c) ->
  b1 = b2.
Proof.
  intros [L1 R1] [L2 R2] H. apply nth_error_ext. intros r.
  destruct (Nat.lt_ge_cases r 8) as [Hr|Hr].
  - destruct (nth_error b1 r) as [row1|] eqn:E1;
      [|apply nth_error_None in E1; lia].
    destruct (nth_error b2 r) as [row2|] eqn:E2;
      [|apply nth_error_None in E2; lia].
    f_equal. rewrite Forall_forall in R1, R2.
    destruct (R1 row1 (nth_error_In _ _ E1)) as [K1 _].
    destruct (R2 row2 (nth_error_In _ _ E2)) as [K2 _].
    apply nth_error_ext. intros c.
    destruct (Nat.lt_ge_cases c 8) as [Hc|Hc].
    + specialize (H r c Hr Hc). unfold cell_at in H.
      now rewrite E1, E2 in H.
    + transitivity (@None (option char)); [|symmetry];
        apply nth_error_None; lia.
  - transitivity (@None Row); [|symmetry]; apply nth_error_None; lia.
Qed.

(** X12: the picture tells the position: when the boards of two records
    that [parse_fen] returned are drawn with the same text on every square,
    the two boards are the same. *)
Theorem X12_drawing_determines_board
        (m : nat) (fen1 fen2 : str) (rec1 rec2 : FenRecord) :
  parse_fen m fen1 = Ok rec1 -> parse_fen m fen2 = Ok rec2 ->
  (forall r c, r < 8 -> c < 8 ->
     option_map lbl_text (fst (draw_board (board rec1)) r c)
     = option_map lbl_text (fst (draw_board (board rec2)) r c)) ->
  board rec1 = board rec2.
Proof.
  intros H1 H2 Hsame.
  apply parse_fen_board_ok in H1. apply parse_fen_board_ok in H2.
  destruct (draw_board_spec _ H1) as (g1 & D1 & I1 & _).
  destruct (draw_board_spec _ H2) as (g2 & D2 & I2 & _).
  rewrite D1, D2 in Hsame. cbn [fst] in Hsame.
  apply board_ext; try assumption. intros r c Hr Hc.
  destruct (board_ok_cell _ r c H1 Hr Hc) as (x & Hx & Xok).
  destruct (board_ok_cell _ r c H2 Hr Hc) as (y & Hy & Yok).
  specialize (Hsame r c Hr Hc).
  rewrite (I1 r c x Hr Hc Hx), (I2 r c y Hr Hc Hy) in Hsame.
  cbn [option_map] in Hsame. injection Hsame as E.
  rewrite Hx, Hy. f_equal. now apply (label_text_injective r c).
Qed.

Lemma X12_witness :
  board (mkFenRecord (map decode_rank (split_on 47%N (lit "44/8/8/8/8/8/8/K7")))
                     (lit "w") (lit "-") (lit "-") 0 1)
  = board (mkFenRecord (map decode_rank (split_on 47%N (lit "8/8/8/8/8/8/8/K34")))
                       (lit "b") (lit "-") (lit "-") 3 9).
Proof.
  apply (X12_drawing_determines_board 4300
           (lit "44/8/8/8/8/8/8/K7 w - - 0 1")
           (lit "8/8/8/8/8/8/8/K34 b - - 3 9")).
  - reflexivity.
  - reflexivity.
  - intros r c Hr Hc.
    do 8 (destruct r as [|r]; [do 8 (destruct c as [|c]; [reflexivity|]); lia|]).
    lia.
Defined.

(** ** The button "Validar y dibujar" *)

Lemma parse_fen_strip (m : nat) (s : str) :
  parse_fen m (strip s) = parse_fen m s.
Proof.
  unfold parse_fen. f_equal. apply parse_fen_depends_on_fields, split_strip.
Qed.

Lemma parse_fen_blank (m : nat) (s : str) (rec : FenRecord) :
  strip s = [] -> parse_fen m s <> Ok rec.
Proof.
  intros Hs H. rewrite <- parse_fen_strip, Hs in H. discriminate.
Qed.

Section WindowFacts.

Variable m : nat.
Variables se re : exn -> str.

Lemma on_validate_cases (app : App) :
  let app' := on_validate m se re app in
  asks_for_input app app' \/ shows_record m app app' \/
  shows_fen_error m app app' \/ shows_unexpected m se re app app'.
Proof.
  cbv zeta. unfold on_validate.
  destruct (strip (fen_var app)) as [|c0 s0] eqn:Hs.
  - left. now split.
  - right. rewrite <- Hs, parse_fen_strip.
    destruct (parse_fen m (fen_var app)) as [rec|e] eqn:Hp.
    + left. exists rec. split; [exact Hp|].
      destruct (draw_board_spec (board rec) (parse_fen_board_ok m (fen_var app) rec Hp))
        as (g & Hd & _).
      rewrite Hd. now split.
    + right. unfold on_exception.
      destruct (kind e) as [k|] eqn:K.
      * left. destruct e as [d|d| |]; try discriminate.
        -- exists (LexicalError d), k. eexists.
           split; [rewrite Hs; discriminate|]. split; [exact Hp|].
           split; [exact K|]. split; reflexivity.
        -- exists (ParseError d), k. eexists.
           split; [rewrite Hs; discriminate|]. split; [exact Hp|].
           split; [exact K|]. split; reflexivity.
      * right. destruct (parse_fen_unclassified m _ e Hp K)
          as (-> & p & s & c & ep & hm & fm & Hf & Hn).
        split; [exact Hp|]. split; [|reflexivity].
        exists p, s, c, ep, hm, fm. now rewrite <- split_strip.
Qed.

End WindowFacts.

(** X13: pressing the button ends in one of four ways.  An entry that is
    empty or all whitespace only brings the box asking for a FEN string.
    An entry whose fields [parse_fen] accepts, whatever whitespace is
    around them, gets the green status; its board is drawn, without any
    exception, and the right panel filled from the record.  An entry that
    [parse_fen] rejects with a [FenError] gets the message of that error
    in red and in an error box.  The box "Error inesperado" comes only for
    the [ValueError] of [int] on a halfmove or fullmove field that passed
    [isdigit]; drawing never causes it. *)
Theorem X13_on_validate_outcomes (m : nat) (se re : exn -> str) (app : App) :
  asks_for_input app (on_validate m se re app) \/
  shows_record m app (on_validate m se re app) \/
  shows_fen_error m app (on_validate m se re app) \/
  shows_unexpected m se re app (on_validate m se re app).
Proof. apply on_validate_cases. Qed.

(** X14: when the entry does not hold a record that [parse_fen] accepts,
    the button leaves the entry, the board and the five labels of the
    right panel as they were, the board of an earlier position included,
    and shows exactly one message box; when it does, no box is shown and
    the status is the green one. *)
Theorem X14_failure_keeps_display (m : nat) (se re : exn -> str) (app : App) :
  let app' := on_validate m se re app in
  ((forall rec, parse_fen m (fen_var app) <> Ok rec) ->
   fen_var app' = fen_var app /\ board_frame app' = board_frame app /\
   side_lbl app' = side_lbl app /\ castling_lbl app' = castling_lbl app /\
   ep_lbl app' = ep_lbl app /\ half_lbl app' = half_lbl app /\
   full_lbl app' = full_lbl app /\
   exists d, dialogs app' = dialogs app ++ [d]) /\
  (forall rec, parse_fen m (fen_var app) = Ok rec ->
   dialogs app' = dialogs app /\ lbl_status app' = status_valid /\
   fen_var app' = fen_var app /\
   board_frame app' = fst (draw_board (board rec))).
Proof.
  cbv zeta.
  destruct (on_validate_cases m se re app)
    as [[Hs ->] | [(rec & Hp & Hd & ->) | [(e & k & msg & Hs & Hp & K & M & ->)
       | (Hp & _ & ->)]]].
  - split.
    + intros _. cbn. repeat split. eexists. reflexivity.
    + intros rec H. now apply parse_fen_blank in H.
  - split.
    + intros H. now apply H in Hp.
    + intros rec' H. rewrite Hp in H. injection H as <-. cbn. now repeat split.
  - split.
    + intros _. cbn. repeat split. eexists. reflexivity.
    + intros rec H. congruence.
  - split.
    + intros _. cbn. repeat split. eexists. reflexivity.
    + intros rec H. congruence.
Qed.

Lemma X14_witness :
  let app := sample_app (lit "  8/8/8/8/8/8/8/8 w KQkq e4 0 1 ") in
  let app' := on_validate 4300 (fun _ => []) (fun _ => []) app in
  fen_var app' = fen_var app /\ board_frame app' = board_frame app /\
  side_lbl app' = side_lbl app /\ castling_lbl app' = castling_lbl app /\
  ep_lbl app' = ep_lbl app /\ half_lbl app' = half_lbl app /\
  full_lbl app' = full_lbl app /\
  exists d, dialogs app' = dialogs app ++ [d].
Proof.
  cbv zeta.
  apply (proj1 (X14_failure_keeps_display 4300 (fun _ => []) (fun _ => [])
                  (sample_app (lit "  8/8/8/8/8/8/8/8 w KQkq e4 0 1 ")))).
  intros rec. vm_compute. discriminate.
Defined.

(** X15: for an entry [parse_fen] accepts, the label of the side to move
    reads "Turno: Blancas (w)" or "Turno: Negras (b)", the first exactly
    when the second field is ['w']: the [else] of the label, written for
    anything that is not ['w'], is reached for ['b'] only. *)
Theorem X15_side_label (m : nat) (se re : exn -> str) (app : App)
        (rec : FenRecord) :
  parse_fen m (fen_var app) = Ok rec ->
  (side_to_move rec = lit "w" /\
   side_lbl (on_validate m se re app) = lit "Turno: Blancas (w)") \/
  (side_to_move rec = lit "b" /\
   side_lbl (on_validate m se re app) = lit "Turno: Negras (b)").
Proof.
  intros Hp.
  destruct (on_validate_cases m se re app)
    as [[Hs _] | [(rec' & Hp' & _ & ->) | [(e & _ & _ & _ & He & _)
       | (He & _)]]];
    [now apply parse_fen_blank in Hp | | congruence | congruence].
  rewrite Hp in Hp'. injection Hp' as <-.
  apply parse_fen_ok in Hp as (_ & s & _ & _ & _ & _ & _ & _ & H2 & _).
  apply side_ok_iff in H2 as [E [-> | ->]]; [left | right];
    (split; [exact E | cbn [side_lbl set_panel]; rewrite E; reflexivity]).
Qed.

Lemma X15_witness :
  (lit "b" = lit "w" /\
   side_lbl (on_validate 4300 (fun _ => []) (fun _ => [])
               (sample_app (lit "8/8/8/8/8/8/8/8 b - - 0 1")))
   = lit "Turno: Blancas (w)") \/
  (lit "b" = lit "b" /\
   side_lbl (on_validate 4300 (fun _ => []) (fun _ => [])
               (sample_app (lit "8/8/8/8/8/8/8/8 b - - 0 1")))
   = lit "Turno: Negras (b)").
Proof.
  apply (X15_side_label 4300 (fun _ => []) (fun _ => [])
           (sample_app (lit "8/8/8/8/8/8/8/8 b - - 0 1"))
           (mkFenRecord (repeat (repeat None 8) 8) (lit "b") (lit "-")
                        (lit "-") 0 1)).
  reflexivity.
Defined.

(** ** The empty board *)

Lemma square_bg_flip (n : nat) :
  (n mod 2 =? 0)%nat = negb ((S n) mod 2 =? 0)%nat.
Proof.
  pose proof (Nat.mod_upper_bound n 2 ltac:(lia)) as H1.
  pose proof (Nat.mod_upper_bound (S n) 2 ltac:(lia)) as H2.
  pose proof (Nat.div_mod_eq n 2) as D1.
  pose proof (Nat.div_mod_eq (S n) 2) as D2.
  destruct (n mod 2 =? 0)%nat eqn:E1; destruct (S n mod 2 =? 0)%nat eqn:E2;
    try reflexivity;
    try apply Nat.eqb_eq in E1; try apply Nat.eqb_neq in E1;
    try apply Nat.eqb_eq in E2; try apply Nat.eqb_neq in E2; lia.
Qed.

(** X16: [_build_empty_board] puts a label without text on each of the 64
    squares and nowhere else, the top left one light, and the colours
    alternate: two squares next to each other in a row or in a column have
    different backgrounds, two next to each other on a diagonal the same. *)
Theorem X16_checkerboard (r c : nat) :
  (r < 8 /\ c < 8 ->
   _build_empty_board r c
   = Some (mkLabel [] (square_bg r c) (lit "#111"))) /\
  (~ (r < 8 /\ c < 8) -> _build_empty_board r c = None) /\
  square_bg 0 0 = lit "#f0d9b5" /\
  square_bg r (S c) <> square_bg r c /\
  square_bg (S r) c <> square_bg r c /\
  square_bg (S r) (S c) = square_bg r c.
Proof.
  unfold _build_empty_board, empty_label. split; [|split]; [| |split].
  - intros [Hr Hc]. apply Nat.ltb_lt in Hr. apply Nat.ltb_lt in Hc.
    now rewrite Hr, Hc.
  - intros H. destruct (r <? 8)%nat eqn:Er; [|reflexivity].
    destruct (c <? 8)%nat eqn:Ec; [|reflexivity].
    apply Nat.ltb_lt in Er. apply Nat.ltb_lt in Ec. tauto.
  - reflexivity.
  - unfold square_bg.
    replace (S r + S c) with (S (S (r + c))) by lia.
    replace (S r + c) with (S (r + c)) by lia.
    replace (r + S c) with (S (r + c)) by lia.
    rewrite (square_bg_flip (r + c)), (square_bg_flip (S (r + c))).
    destruct (S (S (r + c)) mod 2 =? 0)%nat; cbn [negb];
      repeat split; first [reflexivity | discriminate].
Qed.

Lemma X16_witness :
  _build_empty_board 7 7 = Some (mkLabel [] (square_bg 7 7) (lit "#111")) /\
  _build_empty_board 8 0 = None.
Proof.
  split.
  - apply (proj1 (X16_checkerboard 7 7)). lia.
  - apply (proj1 (proj2 (X16_checkerboard 8 0))). lia.
Defined.
